(** * generateComponents: JSON-Schema to TypeScript type synthesis

    A shallow embedding of [types/scripts/generateComponents.ts]: the schema
    store ([loadSchemaContext]), the pointer resolver ([getByPointer]), the
    reference resolver ([resolveRef], [resolveSchema]) and the type
    synthesizer ([jsonTypeToTsType], [renderObject], [wrapUnion],
    [generateJSDoc]), the component extractor and the emitter
    ([extractComponents], [toPascalCase], [generateTypeScript]), and, of
    [lib/schemaRepo.ts], the handling of an archive entry and
    [getRepoPath]; followed by the properties proved about them.

    Conventions of the embedding.
    - A schema is whatever [JSON.parse] produced: the TypeScript type
      [JsonSchema] is erased at run time, so nodes are untyped JSON values
      and every JavaScript operation that can raise on an ill-shaped value
      raises [TypeError] here too.
    - A JavaScript object is the list of its own enumerable properties in
      [Object.entries] order.  Members inherited from the built-in
      prototypes ([toString], [constructor], ...) are not JSON data and are
      left out: [in] and property access see own properties only.
    - Strings are character sequences; numbers are integers, printed in
      decimal.
    - A computation returns or throws; nothing in the script catches an
      exception, so a raised exception ends the run.
    - The file system is a function from logical paths to what
      [readFileSync] and [JSON.parse] find there; the store carries the
      cache and a log of the paths read.
    - The recursive functions are defined by gas.  For the synthesizer the
      depth guard bounds the gas a call needs, which gives the functions
      of the script proper; [resolveSchema] keeps its gas. *)

From Stdlib Require Import ZArith String Ascii List DecimalString Lia.
From stdpp Require Import base gmap strings list.

Open Scope string_scope.

Set Warnings "-register-all".

(** ** Outcomes of JavaScript computations *)

Inductive error : Type :=
  | TypeError     (* property of null, call of a non-function, ... *)
  | RangeError    (* String.prototype.repeat with a negative count *)
  | ENOENT        (* readFileSync: no such file *)
  | SyntaxError.  (* JSON.parse: malformed text *)

(** A computation returns or throws. *)
Inductive outcome (A : Type) : Type :=
  | Ok (a : A)
  | Throw (e : error).

Arguments Ok {A} a.
Arguments Throw {A} e.

Definition obind {A B : Type} (m : outcome A) (k : A -> outcome B) : outcome B :=
  match m with
  | Ok a => k a
  | Throw e => Throw e
  end.

Notation "'let?' x := m 'in' k" := (obind m (fun x => k))
  (at level 10, x name, m at level 100, k at level 200).

(** ** String primitives *)

Definition startsWith (s pre : string) : bool := String.prefix pre s.

(** Whether the last character of [s] is [c]. *)
Fixpoint endsWith (s : string) (c : ascii) : bool :=
  match s with
  | EmptyString => false
  | String d EmptyString => Ascii.eqb d c
  | String _ rest => endsWith rest c
  end.

(** [s.split(sep)] for a one-character separator. *)
Fixpoint split (sep : ascii) (s : string) : list string :=
  match s with
  | EmptyString => [EmptyString]
  | String c s' =>
      if Ascii.eqb c sep then EmptyString :: split sep s'
      else match split sep s' with
           | [] => [String c EmptyString]
           | x :: xs => String c x :: xs
           end
  end.

(** [s.replace(/pat/g, rep)] for a literal, non-empty pattern: a left to
    right scan; [skip] counts the characters of a match still to drop. *)
Fixpoint replace_go (pat rep : string) (skip : nat) (s : string) : string :=
  match s with
  | EmptyString => EmptyString
  | String c s' =>
      match skip with
      | S k => replace_go pat rep k s'
      | O =>
          if String.prefix pat s
          then rep ++ replace_go pat rep (String.length pat - 1) s'
          else String c (replace_go pat rep 0 s')
      end
  end.

Definition replaceAll (pat rep s : string) : string := replace_go pat rep 0 s.

(** [s.repeat(n)] *)
Fixpoint repeat_string (s : string) (n : nat) : string :=
  match n with
  | O => EmptyString
  | S k => s ++ repeat_string s k
  end.

(** [xs.join(sep)] on an array of strings. *)
Definition join (sep : string) (xs : list string) : string := String.concat sep xs.

Definition nonempty (s : string) : bool :=
  match s with EmptyString => false | String _ _ => true end.

(** Decimal rendering of an integer, as [String(n)] and [JSON.stringify(n)]. *)
Definition show_Z (n : Z) : string := NilZero.string_of_int (Z.to_int n).
Definition show_nat (n : nat) : string := show_Z (Z.of_nat n).

(** The one-character strings of [s], as iterating or indexing a string gives. *)
Fixpoint chars (s : string) : list string :=
  match s with
  | EmptyString => []
  | String c s' => String c EmptyString :: chars s'
  end.

(** ** JSON values *)

Inductive json : Type :=
  | JNull
  | JBool (b : bool)
  | JNum (n : Z)
  | JStr (s : string)
  | JArr (xs : list json)
  | JObj (kvs : list (string * json)).

(** Own property lookup in an object. *)
Fixpoint assoc (k : string) (kvs : list (string * json)) : option json :=
  match kvs with
  | [] => None
  | (k', v) :: rest => if String.eqb k' k then Some v else assoc k rest
  end.

(** [{ ...obj, k: v }]: the value is replaced where the key stands, or the
    property is added last. *)
Fixpoint assoc_set (k : string) (v : json) (kvs : list (string * json))
  : list (string * json) :=
  match kvs with
  | [] => [(k, v)]
  | (k', v') :: rest =>
      if String.eqb k' k then (k, v) :: rest else (k', v') :: assoc_set k v rest
  end.

(** JavaScript truthiness; [None] stands for [undefined]. *)
Definition truthy (v : json) : bool :=
  match v with
  | JNull => false
  | JBool b => b
  | JNum n => negb (Z.eqb n 0)
  | JStr s => nonempty s
  | JArr _ | JObj _ => true
  end.

Definition truthy_opt (v : option json) : bool :=
  match v with Some j => truthy j | None => false end.

(** [a ?? b] *)
Definition nullish (a b : option json) : option json :=
  match a with
  | None | Some JNull => b
  | Some _ => a
  end.

(** [typeof v === 'object'] *)
Definition typeof_object (v : json) : bool :=
  match v with
  | JNull | JArr _ | JObj _ => true
  | _ => false
  end.

(** [v.name] for one of the schema field names: [null] has no properties. *)
Definition field (v : json) (name : string) : outcome (option json) :=
  match v with
  | JNull => Throw TypeError
  | JObj kvs => Ok (assoc name kvs)
  | _ => Ok None
  end.

(** The index an array property key stands for, if any. *)
Definition array_index (part : string) (len : nat) : option nat :=
  List.find (fun i => String.eqb (show_nat i) part) (seq 0 len).

(** [part in v] *)
Definition js_in (part : string) (v : json) : outcome bool :=
  match v with
  | JObj kvs => Ok (bool_decide (is_Some (assoc part kvs)))
  | JArr xs =>
      Ok (bool_decide (is_Some (array_index part (length xs)))
          || String.eqb part "length")
  | _ => Throw TypeError
  end.

(** [v[part]] *)
Definition js_member (v : json) (part : string) : outcome (option json) :=
  match v with
  | JNull => Throw TypeError
  | JObj kvs => Ok (assoc part kvs)
  | JArr xs =>
      match array_index part (length xs) with
      | Some i => Ok (xs !! i)
      | None =>
          if String.eqb part "length"
          then Ok (Some (JNum (Z.of_nat (length xs)))) else Ok None
      end
  | JStr s =>
      match array_index part (String.length s) with
      | Some i => Ok (JStr <$> (chars s !! i))
      | None =>
          if String.eqb part "length"
          then Ok (Some (JNum (Z.of_nat (String.length s)))) else Ok None
      end
  | _ => Ok None
  end.

(** ** Pointer resolver *)

Definition unescape (part : string) : string :=
  replaceAll "%3A" ":" (replaceAll "~0" "~" (replaceAll "~1" "/" part)).

(** [pointer.slice(2).split('/').map(unescape)] *)
Definition pointer_parts (pointer : string) : list string :=
  map unescape (split "/" (String.substring 2 (String.length pointer - 2) pointer)).

(** The [for] loop of [getByPointer]; [JNull] is JavaScript's [null]. *)
Fixpoint pointer_loop (current : json) (parts : list string) : outcome json :=
  match parts with
  | [] => Ok current
  | part :: rest =>
      if truthy current then
        if typeof_object current then
          let? present := js_in part current in
          if (present : bool) then
            let? next := js_member current part in
            pointer_loop (default JNull next) rest
          else Ok JNull
        else Ok JNull
      else Ok JNull
  end.

Definition getByPointer (schema : json) (pointer : string) : outcome json :=
  if negb (startsWith pointer "#/") then Ok schema
  else pointer_loop schema (pointer_parts pointer).


(** ** path.posix

    The three functions of Node's [path.posix] that [resolveRef] calls.
    They are platform code, modelled here from Node's documented algorithm:
    a path is cut at its separators and the segments are folded over a
    stack, [.] and empty segments being dropped and [..] removing the
    segment before it. *)

Module posix.

Definition normalize_step (allowAboveRoot : bool)
    (stack : list string) (seg : string) : list string :=
  if String.eqb seg EmptyString || String.eqb seg "." then stack
  else if String.eqb seg ".." then
    match stack with
    | top :: below =>
        if String.eqb top ".."
        then (if allowAboveRoot then seg :: stack else stack)
        else below
    | [] => if allowAboveRoot then [seg] else []
    end
  else seg :: stack.

Definition normalizeString (path : string) (allowAboveRoot : bool) : string :=
  String.concat "/"
    (rev (fold_left (normalize_step allowAboveRoot) (split "/" path) [])).

Definition normalize (path : string) : string :=
  if negb (nonempty path) then "."
  else
    let isAbsolute := startsWith path "/" in
    let trailingSeparator := endsWith path "/" in
    let p := normalizeString path (negb isAbsolute) in
    if negb (nonempty p)
    then (if isAbsolute then "/" else if trailingSeparator then "./" else ".")
    else
      let p := if trailingSeparator then p ++ "/" else p in
      if isAbsolute then "/" ++ p else p.

(** [path.posix.join(a, b)] *)
Definition join (a b : string) : string :=
  match nonempty a, nonempty b with
  | true, true => normalize (a ++ "/" ++ b)
  | true, false => normalize a
  | false, true => normalize b
  | false, false => "."
  end.

Fixpoint drop_while (p : ascii -> bool) (l : list ascii) : list ascii :=
  match l with
  | [] => []
  | c :: l' => if p c then drop_while p l' else l
  end.

Definition is_slash (c : ascii) : bool := Ascii.eqb c "/".

(** The scan of [dirname] runs from the last character down to index 1:
    trailing separators are skipped, then the last segment, and the path
    is cut at the separator found before it. *)
Definition dirname (path : string) : string :=
  match path with
  | EmptyString => "."
  | String c0 rest =>
      let hasRoot := is_slash c0 in
      let scanned := rev (list_ascii_of_string rest) in
      let after_trailing := drop_while is_slash scanned in
      let at_separator := drop_while (fun c => negb (is_slash c)) after_trailing in
      match at_separator with
      | [] => if hasRoot then "/" else "."
      | _ :: before =>
          if hasRoot && (length at_separator =? 1)%nat then "//"
          else String c0 (string_of_list_ascii (rev before))
      end
  end.

End posix.

(** ** Schema store *)

(** What [readFileSync] followed by [JSON.parse] finds at a logical path:
    no file ([None]), text that does not parse, or a document. *)
Inductive file : Type :=
  | Malformed
  | Document (j : json).

Record SchemaContext : Type := { schema : json; path : string }.

(** [schemaCache], and the log of the paths handed to [readFileSync]. *)
Record store : Type := { schemaCache : gmap string json; reads : list string }.

(** Computations over the store.  The recursive functions below are
    defined by gas; [None] says that the gas ran out before the call
    finished, which is no behaviour of the script. *)
Definition M (A : Type) : Type := store -> option (outcome A * store).

Definition ret {A : Type} (a : A) : M A := fun st => Some (Ok a, st).

Definition throw {A : Type} (e : error) : M A := fun st => Some (Throw e, st).

Definition out_of_gas {A : Type} : M A := fun _ => None.

Definition lift {A : Type} (o : outcome A) : M A := fun st => Some (o, st).

Definition bind {A B : Type} (m : M A) (k : A -> M B) : M B :=
  fun st =>
    match m st with
    | Some (Ok a, st') => k a st'
    | Some (Throw e, st') => Some (Throw e, st')
    | None => None
    end.

Notation "'let*' x := m 'in' k" := (bind m (fun x => k))
  (at level 10, x name, m at level 100, k at level 200).

(** [xs.map(f)] with an effectful callback, left to right. *)
Fixpoint Array_map {A B : Type} (f : A -> M B) (xs : list A) : M (list B) :=
  match xs with
  | [] => ret []
  | x :: rest =>
      let* y := f x in
      let* ys := Array_map f rest in
      ret (y :: ys)
  end.

Section Store.

Variable fs : string -> option file.

Definition loadSchemaContext (relativePath : string) : M SchemaContext :=
  fun st =>
    match schemaCache st !! relativePath with
    | Some j => Some (Ok {| schema := j; path := relativePath |}, st)
    | None =>
        let reads' := (reads st ++ [relativePath])%list in
        match fs relativePath with
        | None =>
            Some (Throw ENOENT,
                  {| schemaCache := schemaCache st; reads := reads' |})
        | Some Malformed =>
            Some (Throw SyntaxError,
                  {| schemaCache := schemaCache st; reads := reads' |})
        | Some (Document j) =>
            Some (Ok {| schema := j; path := relativePath |},
                  {| schemaCache := <[relativePath := j]> (schemaCache st);
                     reads := reads' |})
        end
    end.

(** ** Reference resolver *)

Definition resolveRef (ref : json) (context : SchemaContext)
  : M (option SchemaContext) :=
  match ref with
  | JStr ref =>
      if startsWith ref "#/" then
        let* target := lift (getByPointer (schema context) ref) in
        ret (if truthy target
             then Some {| schema := target; path := path context |}
             else None)
      else if startsWith ref "#" then ret (Some context)
      else
        let pieces := firstn 2 (split "#" ref) in
        let refPath := hd EmptyString pieces in
        let fragment := pieces !! 1%nat in
        let baseDir := posix.dirname (path context) in
        let normalized := posix.normalize (posix.join baseDir refPath) in
        let* targetContext := loadSchemaContext normalized in
        match fragment with
        | Some fragment =>
            if nonempty fragment && startsWith fragment "/" then
              let* target :=
                lift (getByPointer (schema targetContext) ("#" ++ fragment)) in
              ret (if truthy target
                   then Some {| schema := target; path := normalized |}
                   else None)
            else ret (Some targetContext)
        | None => ret (Some targetContext)
        end
  | _ => throw TypeError
  end.

End Store.

(** ** Conversions to text *)

(** [String(v)], as a template literal applies it.  An array joins the
    conversions of its elements, [null] elements giving the empty string;
    an object that has a property of its own named [toString] has no
    callable conversion left. *)
Fixpoint ToString (v : json) : outcome string :=
  match v with
  | JNull => Ok "null"
  | JBool true => Ok "true"
  | JBool false => Ok "false"
  | JNum n => Ok (show_Z n)
  | JStr s => Ok s
  | JArr xs =>
      let? parts :=
        (fix elements (l : list json) : outcome (list string) :=
           match l with
           | [] => Ok []
           | x :: l' =>
               let? s := match x with JNull => Ok EmptyString | _ => ToString x end in
               let? ss := elements l' in
               Ok (s :: ss)
           end) xs in
      Ok (join "," parts)
  | JObj kvs =>
      if bool_decide (is_Some (assoc "toString" kvs))
      then Throw TypeError else Ok "[object Object]"
  end.

Definition hex_digit (n : nat) : ascii :=
  ascii_of_nat (if (n <? 10)%nat then 48 + n else 87 + n).

Definition quote_char : ascii := ascii_of_nat 34.
Definition backslash : string := String (ascii_of_nat 92) EmptyString.

(** The escapes of [JSON.stringify] inside a string literal. *)
Definition escape_char (c : ascii) : string :=
  let n := nat_of_ascii c in
  if (n =? 34)%nat then backslash ++ String quote_char EmptyString
  else if (n =? 92)%nat then backslash ++ backslash
  else if (n =? 8)%nat then backslash ++ "b"
  else if (n =? 9)%nat then backslash ++ "t"
  else if (n =? 10)%nat then backslash ++ "n"
  else if (n =? 12)%nat then backslash ++ "f"
  else if (n =? 13)%nat then backslash ++ "r"
  else if (n <? 32)%nat
  then backslash ++ "u00"
       ++ String (hex_digit (n / 16)) (String (hex_digit (n mod 16)) EmptyString)
  else String c EmptyString.

Fixpoint escape (s : string) : string :=
  match s with
  | EmptyString => EmptyString
  | String c s' => escape_char c ++ escape s'
  end.

Definition quote (s : string) : string :=
  String quote_char (escape s ++ String quote_char EmptyString).

(** [JSON.stringify(v)] *)
Fixpoint stringify (v : json) : string :=
  match v with
  | JNull => "null"
  | JBool true => "true"
  | JBool false => "false"
  | JNum n => show_Z n
  | JStr s => quote s
  | JArr xs => "[" ++ join "," (List.map stringify xs) ++ "]"
  | JObj kvs =>
      "{" ++ join ","
               (List.map (fun kv => quote (fst kv) ++ ":" ++ stringify (snd kv)) kvs)
          ++ "}"
  end.

(** A template literal around [JSON.stringify] of a possibly missing value. *)
Definition stringify_opt (v : option json) : string :=
  match v with Some j => stringify j | None => "undefined" end.

(** [a === b] on values read from a parsed document: primitives compare
    by value, two objects or arrays are never the same reference. *)
Definition strict_equal (a b : option json) : bool :=
  match a, b with
  | None, None => true
  | Some JNull, Some JNull => true
  | Some (JBool x), Some (JBool y) => Bool.eqb x y
  | Some (JNum x), Some (JNum y) => Z.eqb x y
  | Some (JStr x), Some (JStr y) => String.eqb x y
  | _, _ => false
  end.

(** [Object.entries(v)], which is also what [{ ...v }] copies. *)
Definition entries (v : json) : list (string * json) :=
  match v with
  | JObj kvs => kvs
  | JArr xs => imap (fun i x => (show_nat i, x)) xs
  | JStr s => imap (fun i c => (show_nat i, JStr c)) (chars s)
  | _ => []
  end.

(** ** Union construction *)

(** Insertion into a JavaScript [Set] of strings, kept in insertion order. *)
Definition Set_add (seen : list string) (x : string) : list string :=
  if bool_decide (x ∈ seen) then seen else (seen ++ [x])%list.

(** [[...new Set(xs)]] *)
Definition Set_of (xs : list string) : list string := fold_left Set_add xs [].

Definition wrapUnion (types : list string) : string :=
  let unique := Set_of (List.filter nonempty types) in
  if (length unique =? 0)%nat then "unknown"
  else if (length unique =? 1)%nat then hd EmptyString unique
  else join " | " unique.

(** ** Documentation extractor *)

Definition newline_char : ascii := ascii_of_nat 10.
Definition newline : string := String newline_char EmptyString.

(** [lines.push(x)] *)
Definition push (lines : list string) (x : string) : list string :=
  app lines [x].

Definition generateJSDoc (node : json) (depth : nat) : outcome string :=
  let? title := field node "title" in
  let? description := field node "description" in
  let? default_ := field node "default" in
  let? examples := field node "examples" in
  let? examples_length :=
    match examples with
    | Some e => if truthy e then js_member e "length" else Ok None
    | None => Ok None
    end in
  let has_examples := truthy_opt examples && truthy_opt examples_length in
  if truthy_opt title || truthy_opt description
     || bool_decide (is_Some default_) || has_examples
  then
    let indent := repeat_string "  " depth in
    let lines := [indent ++ "/**"] in
    let? lines :=
      if truthy_opt title && negb (strict_equal title description)
      then let? t := ToString (default JNull title) in
           Ok (push lines (indent ++ " * " ++ t))
      else Ok lines in
    let? lines :=
      match description with
      | Some d =>
          if truthy d then
            match d with
            | JStr text =>
                Ok (fold_left push
                      (List.map (fun line => indent ++ " * " ++ line)
                         (split newline_char text))
                      lines)
            | _ => Throw TypeError
            end
          else Ok lines
      | None => Ok lines
      end in
    let lines :=
      match default_ with
      | Some d => push lines (indent ++ " * @default " ++ stringify d)
      | None => lines
      end in
    let? lines :=
      if has_examples then
        let? first := js_member (default JNull examples) "0" in
        Ok (push lines (indent ++ " * @example " ++ stringify_opt first))
      else Ok lines in
    let lines := push lines (indent ++ " */") in
    Ok (join newline lines)
  else Ok (join newline []).

(** ** Type synthesizer *)

(** The test [/^[A-Za-z_$][A-Za-z0-9_$]*$/] *)
Definition ident_start (c : ascii) : bool :=
  let n := nat_of_ascii c in
  ((65 <=? n) && (n <=? 90) || (97 <=? n) && (n <=? 122)
   || (n =? 95) || (n =? 36))%nat.

Definition ident_part (c : ascii) : bool :=
  let n := nat_of_ascii c in
  ident_start c || ((48 <=? n) && (n <=? 57))%nat.

Definition is_identifier (key : string) : bool :=
  match key with
  | EmptyString => false
  | String c rest => ident_start c && forallb ident_part (list_ascii_of_string rest)
  end.

(** [new Set(v)] for the [required] field: arrays and strings are iterable. *)
Definition new_Set (v : json) : outcome (list json) :=
  match v with
  | JArr xs => Ok xs
  | JStr s => Ok (List.map JStr (chars s))
  | _ => Throw TypeError
  end.

(** [required.has(key)] *)
Definition Set_has (required : list json) (key : string) : bool :=
  existsb (fun v => strict_equal (Some v) (Some (JStr key))) required.

(** The closing [switch (schema.type)]: cases compare with [===]. *)
Definition switch_type (type : option json) : string :=
  if strict_equal type (Some (JStr "string")) then "string"
  else if strict_equal type (Some (JStr "number")) then "number"
  else if strict_equal type (Some (JStr "integer")) then "number"
  else if strict_equal type (Some (JStr "boolean")) then "boolean"
  else if strict_equal type (Some (JStr "null")) then "null"
  else if strict_equal type (Some (JStr "array")) then "unknown[]"
  else if strict_equal type (Some (JStr "object")) then "Record<string, unknown>"
  else "unknown".

Section Synthesis.

Variable fs : string -> option file.

(** The two functions call each other; their bodies are written over the
    callees, which the definitions by gas below tie together. *)
Variable jsonTypeToTsType_rec : json -> SchemaContext -> nat -> M string.
Variable renderObject_rec : json -> SchemaContext -> nat -> M string.

(** [xs.map(...)] on a value that has to be an array. *)
Definition map_array (v : option json) (f : json -> M string) : M (list string) :=
  match v with
  | Some (JArr xs) => Array_map f xs
  | _ => throw TypeError
  end.

Definition jsonTypeToTsType_body
    (node : json) (context : SchemaContext) (depth : nat) : M string :=
  if (20 <? depth)%nat then ret "unknown"
  else
    let* ref := lift (field node "$ref") in
    if truthy_opt ref then
      let* target := resolveRef fs (default JNull ref) context in
      match target with
      | Some target => jsonTypeToTsType_rec (schema target) target (depth + 1)
      | None => ret "unknown"
      end
    else
    let* oneOf := lift (field node "oneOf") in
    let* anyOf := lift (field node "anyOf") in
    if truthy_opt oneOf || truthy_opt anyOf then
      let options := nullish oneOf (nullish anyOf (Some (JArr []))) in
      let* types :=
        map_array options
          (fun option => jsonTypeToTsType_rec option context (depth + 1)) in
      ret (wrapUnion (List.filter nonempty types))
    else
    let* allOf := lift (field node "allOf") in
    if truthy_opt allOf then
      let* types :=
        map_array allOf
          (fun option => jsonTypeToTsType_rec option context (depth + 1)) in
      ret (if (0 <? length types)%nat then join " & " types else "unknown")
    else
    let* enum := lift (field node "enum") in
    if truthy_opt enum then
      let* types :=
        map_array enum
          (fun value =>
             ret (match value with
                  | JStr text => "'" ++ text ++ "'"
                  | _ => stringify value
                  end)) in
      ret (wrapUnion types)
    else
    let* const := lift (field node "const") in
    match const with
    | Some (JStr text) => ret ("'" ++ text ++ "'")
    | Some value => ret (stringify value)
    | None =>
    let* type := lift (field node "type") in
    match type with
    | Some (JArr members) =>
        let* types :=
          Array_map
            (fun member =>
               jsonTypeToTsType_rec
                 (JObj (assoc_set "type" member (entries node)))
                 context (depth + 1))
            members in
        ret (wrapUnion types)
    | _ =>
    let* items := lift (field node "items") in
    if strict_equal type (Some (JStr "array")) && truthy_opt items then
      match items with
      | Some (JArr slots) =>
          let* types :=
            Array_map
              (fun item => jsonTypeToTsType_rec item context (depth + 1))
              slots in
          ret ("[" ++ join ", " types ++ "]")
      | _ =>
          let* itemType :=
            jsonTypeToTsType_rec (default JNull items) context (depth + 1) in
          ret ("(" ++ itemType ++ ")[]")
      end
    else
    let* properties := lift (field node "properties") in
    if strict_equal type (Some (JStr "object")) || truthy_opt properties then
      renderObject_rec node context (depth + 1)
    else
      ret (switch_type type)
    end
    end.

(** The [for] loop of [renderObject] over [Object.entries(props)]. *)
Fixpoint renderObject_loop (required : list json) (indent : string)
    (context : SchemaContext) (depth : nat)
    (props : list (string * json)) (lines : list string) : M (list string) :=
  match props with
  | [] => ret lines
  | (key, value) :: rest =>
      let* doc := lift (generateJSDoc value depth) in
      let lines := if nonempty doc then push lines doc else lines in
      let optional := if Set_has required key then EmptyString else "?" in
      let safeKey := if is_identifier key then key else "'" ++ key ++ "'" in
      let* type := jsonTypeToTsType_rec value context (depth + 1) in
      renderObject_loop required indent context depth rest
        (push lines (indent ++ safeKey ++ optional ++ ": " ++ type ++ ";"))
  end.

Definition renderObject_body
    (node : json) (context : SchemaContext) (depth : nat) : M string :=
  let* properties := lift (field node "properties") in
  let props := default JNull (nullish properties (Some (JObj []))) in
  let* required_field := lift (field node "required") in
  let* required :=
    lift (new_Set (default JNull (nullish required_field (Some (JArr []))))) in
  let indent := repeat_string "  " depth in
  let* lines :=
    renderObject_loop required indent context depth (entries props) ["{"] in
  let* additionalProperties := lift (field node "additionalProperties") in
  let* lines :=
    match additionalProperties with
    | Some (JBool true) => ret (push lines (indent ++ "[key: string]: unknown;"))
    | Some value =>
        if typeof_object value then
          let* additional := jsonTypeToTsType_rec value context (depth + 1) in
          ret (push lines (indent ++ "[key: string]: " ++ additional ++ ";"))
        else ret lines
    | None => ret lines
    end in
  match depth with
  | O => throw RangeError
  | S shallower =>
      ret (join newline (push lines (repeat_string "  " shallower ++ "}")))
  end.

End Synthesis.

(** Every call of either function spends one unit of gas. *)
Fixpoint jsonTypeToTsType_gas (fs : string -> option file) (gas : nat)
    (node : json) (context : SchemaContext) (depth : nat) {struct gas} : M string :=
  match gas with
  | O => out_of_gas
  | S g =>
      jsonTypeToTsType_body fs (jsonTypeToTsType_gas fs g) (renderObject_gas fs g)
        node context depth
  end
with renderObject_gas (fs : string -> option file) (gas : nat)
    (node : json) (context : SchemaContext) (depth : nat) {struct gas} : M string :=
  match gas with
  | O => out_of_gas
  | S g => renderObject_body (jsonTypeToTsType_gas fs g) node context depth
  end.

(** The depth guard bounds the nesting of calls: a call at [depth] never
    needs more than [24 - depth] units (one when [depth] is beyond the
    guard), so the functions of the script are these. *)
Definition jsonTypeToTsType (fs : string -> option file)
    (node : json) (context : SchemaContext) (depth : nat) : M string :=
  jsonTypeToTsType_gas fs (S (23 - depth)) node context depth.

Definition renderObject (fs : string -> option file)
    (node : json) (context : SchemaContext) (depth : nat) : M string :=
  renderObject_gas fs (S (S (23 - depth))) node context depth.

(** ** Chains of references *)

(** [seen] is a JavaScript [Set] of keys; each call passes it on enlarged. *)
Fixpoint resolveSchema_gas (fs : string -> option file) (gas : nat)
    (node : json) (context : SchemaContext) (seen : gset string)
    {struct gas} : M SchemaContext :=
  match gas with
  | O => out_of_gas
  | S g =>
      let* ref := lift (field node "$ref") in
      if negb (truthy_opt ref)
      then ret {| schema := node; path := path context |}
      else
        let* text := lift (ToString (default JNull ref)) in
        let key := path context ++ "::" ++ text in
        if bool_decide (key ∈ seen)
        then ret {| schema := node; path := path context |}
        else
          let* target := resolveRef fs (default JNull ref) context in
          match target with
          | None => ret {| schema := node; path := path context |}
          | Some target =>
              resolveSchema_gas fs g (schema target) target ({[ key ]} ∪ seen)
          end
  end.

(** ** Components *)

Record ComponentDefinition : Type :=
  { name : string;
    type : string;
    description : option json;
    title : option json }.

(** [a ?? b] where reading [b] may raise. *)
Definition nullish_lazy (a : option json) (b : outcome (option json))
  : outcome (option json) :=
  match a with
  | None | Some JNull => b
  | Some _ => Ok a
  end.

(** The body of the [for] loop of [extractComponents]. *)
Definition extractComponent (fs : string -> option file) (gas : nat)
    (context : SchemaContext) (entry : string * json) : M ComponentDefinition :=
  let (name, node) := entry in
  let* resolved := resolveSchema_gas fs gas node context ∅ in
  let* typeString := jsonTypeToTsType fs (schema resolved) resolved 0 in
  let* resolved_description := lift (field (schema resolved) "description") in
  let* description :=
    lift (nullish_lazy resolved_description (field node "description")) in
  let* resolved_title := lift (field (schema resolved) "title") in
  let* title := lift (nullish_lazy resolved_title (field node "title")) in
  ret {| name := name; type := typeString;
         description := description; title := title |}.

Definition extractComponents_gas (fs : string -> option file) (gas : nat)
    (context : SchemaContext) : M (list ComponentDefinition) :=
  let* properties := lift (field (schema context) "properties") in
  let props := default JNull (nullish properties (Some (JObj []))) in
  Array_map (extractComponent fs gas context) (entries props).

Definition ROOT_SCHEMA : string :=
  "source/behavior/entities/format/components.json".

(** [main], up to the text it hands to the emitter. *)
Definition main_gas (fs : string -> option file) (gas : nat)
  : M (list ComponentDefinition) :=
  let* rootContext := loadSchemaContext fs ROOT_SCHEMA in
  extractComponents_gas fs gas rootContext.

(** ** Emitter *)

(** The test [/[a-zA-Z0-9]/] *)
Definition alnum (c : ascii) : bool :=
  let n := nat_of_ascii c in
  ((65 <=? n) && (n <=? 90) || (97 <=? n) && (n <=? 122)
   || (48 <=? n) && (n <=? 57))%nat.

(** [value.split(/[^a-zA-Z0-9]+/)]: the pieces between the maximal runs of
    other characters; [in_run] says that the character before belongs to
    such a run. *)
Fixpoint split_runs (in_run : bool) (s : string) : list string :=
  match s with
  | EmptyString => [EmptyString]
  | String c s' =>
      if alnum c then
        match split_runs false s' with
        | [] => [String c EmptyString]
        | x :: xs => String c x :: xs
        end
      else if in_run then split_runs true s'
      else EmptyString :: split_runs true s'
  end.

(** [c.toUpperCase()] on a letter or digit. *)
Definition toUpperCase (c : ascii) : ascii :=
  let n := nat_of_ascii c in
  if ((97 <=? n) && (n <=? 122))%nat then ascii_of_nat (n - 32) else c.

(** [part.charAt(0).toUpperCase() + part.slice(1)] *)
Definition capitalize (part : string) : string :=
  match part with
  | EmptyString => EmptyString
  | String c rest => String (toUpperCase c) rest
  end.

Definition toPascalCase (value : string) : string :=
  join EmptyString
    (List.map capitalize (List.filter nonempty (split_runs false value))).

Definition REPO : string := "Blockception/Minecraft-bedrock-json-schemas".
Definition REF : string := "2cc0b9b10b48bc7937cf86845c83504e40b9458f".

(** The warning sign of the banner, U+26A0 U+FE0F, in UTF-8. *)
Definition warning_sign : string :=
  string_of_list_ascii
    (List.map ascii_of_nat [226; 154; 160; 239; 184; 143]).

Definition banner : string :=
  join newline
    [ "/*";
      " * " ++ warning_sign ++ " AUTO-GENERATED FILE " ++ warning_sign;
      " * Source repo: " ++ REPO;
      " * Source ref: " ++ REF;
      " * Script: pokemon-behaviors/types/scripts/generateComponents.ts";
      " *";
      " * Do not edit this file directly. Run `npm run generate:types` instead.";
      " * Source file: " ++ ROOT_SCHEMA;
      " * Origin: https://raw.githubusercontent.com/" ++ REPO ++ "/" ++ REF
        ++ "/" ++ ROOT_SCHEMA;
      " */" ].

(** [`EntityComponent${toPascalCase(component.name)}`] *)
Definition typeName (component : ComponentDefinition) : string :=
  "EntityComponent" ++ toPascalCase (name component).

(** The callback of the first [map] of [generateTypeScript]. *)
Definition typeAlias (component : ComponentDefinition) : outcome string :=
  let title := title component in
  let description := description component in
  let? docLines :=
    if truthy_opt title || truthy_opt description then
      let docLines := ["/**"] in
      let? docLines :=
        if truthy_opt title && negb (strict_equal title description)
        then let? t := ToString (default JNull title) in
             Ok (push docLines (" * " ++ t))
        else Ok docLines in
      let? docLines :=
        match description with
        | Some d =>
            if truthy d then
              match d with
              | JStr text =>
                  Ok (fold_left push
                        (List.map (fun line => " * " ++ line)
                           (split newline_char text))
                        docLines)
              | _ => Throw TypeError
              end
            else Ok docLines
        | None => Ok docLines
        end in
      Ok (push docLines " */")
    else Ok [] in
  let doc := join newline docLines in
  Ok ((if nonempty doc then doc ++ newline else EmptyString)
      ++ "export type " ++ typeName component ++ " = " ++ type component
      ++ ";" ++ newline).

(** [xs.map(f)] with a callback that may raise, left to right. *)
Fixpoint map_outcome {A B : Type} (f : A -> outcome B) (xs : list A)
  : outcome (list B) :=
  match xs with
  | [] => Ok []
  | x :: rest =>
      let? y := f x in
      let? ys := map_outcome f rest in
      Ok (y :: ys)
  end.

Definition interfaceDoc : string :=
  join newline
    [ "/**";
      " * All known Minecraft entity components with strong TypeScript types.";
      " */" ].

Definition generateTypeScript (components : list ComponentDefinition)
  : outcome string :=
  let? aliases := map_outcome typeAlias components in
  let typeAliases := join newline aliases in
  let interfaceBody :=
    interfaceDoc ++ newline
    ++ "export interface EntityComponents {" ++ newline
    ++ join newline
         (List.map
            (fun component =>
               "  '" ++ name component ++ "'?: " ++ typeName component ++ ";")
            components)
    ++ newline ++ "}" ++ newline ++ newline
    ++ "export default EntityComponents;" ++ newline in
  Ok (banner ++ newline ++ newline ++ typeAliases ++ newline ++ interfaceBody).

(** [main], up to the text it hands to the formatter. *)
Definition main_text_gas (fs : string -> option file) (gas : nat) : M string :=
  let* components := main_gas fs gas in
  lift (generateTypeScript components).

(** ** Schema archive

    The part of [ensureRepoReady] that decides, for one entry of the
    downloaded archive, what is written where.  [REPO_DIR] is the cache
    directory, which the script resolves from its own location; paths are
    joined as on a POSIX platform. *)

(** [`${REPO.split('/')[1]}-${REF}`] *)
Definition ARCHIVE_PREFIX : string :=
  default "undefined" (split "/" REPO !! 1%nat) ++ "-" ++ REF.

(** [s.slice(n)] *)
Definition slice (n : nat) (s : string) : string :=
  String.substring n (String.length s - n) s.

(** [s.replace(/^\/+/, '')] *)
Fixpoint strip_slashes (s : string) : string :=
  match s with
  | EmptyString => EmptyString
  | String c rest => if Ascii.eqb c "/" then strip_slashes rest else s
  end.

(** What the handler does with an entry, besides draining its stream. *)
Inductive entry_action : Type :=
  | Skip
  | MakeDirectory (target : string)
  | WriteFile (directory target : string).

Section Archive.

Variable REPO_DIR : string.

Definition getRepoPath (relativePath : string) : string :=
  posix.join REPO_DIR relativePath.

(** The handler of [extract.on('entry', ...)]. *)
Definition on_entry (header_name header_type : string) : entry_action :=
  if negb (startsWith header_name ARCHIVE_PREFIX) then Skip
  else
    let relative :=
      strip_slashes (slice (String.length ARCHIVE_PREFIX) header_name) in
    if negb (nonempty relative) then Skip
    else
      let targetPath := posix.join REPO_DIR relative in
      if String.eqb header_type "directory" then MakeDirectory targetPath
      else if negb (String.eqb header_type "file") then Skip
      else WriteFile (posix.dirname targetPath) targetPath.

End Archive.

(** ** Notions used in the statements *)

(** A computation that finishes from every store. *)
Definition returns {A : Type} (m : M A) : Prop := forall st, exists r, m st = Some r.

(** The store at the start of a run: nothing cached, nothing read. *)
Definition empty_store : store := {| schemaCache := ∅; reads := [] |}.

(** No file at all. *)
Definition no_files (p : string) : option file := None.

(** Two documents that refer to each other. *)
Definition node_to (target : string) : json := JObj [("$ref", JStr target)].

Definition cyclic_files (p : string) : option file :=
  if String.eqb p "a.json" then Some (Document (node_to "b.json"))
  else if String.eqb p "b.json" then Some (Document (node_to "a.json"))
  else None.

(** Scenario B of the specification. *)
Definition scenario_B : json :=
  JObj [("oneOf", JArr [JObj [("const", JStr "a")];
                        JObj [("const", JStr "a")];
                        JObj [("const", JStr "b")]])].


(** The unescaping of one pointer segment as the specification words it:
    a single reading from the left that turns [~1] into [/], [~0] into [~]
    and [%3A] into [:]. *)
Fixpoint decode_segment (s : string) : string :=
  match s with
  | EmptyString => EmptyString
  | String c rest =>
      match rest with
      | EmptyString => String c EmptyString
      | String d rest' =>
          if Ascii.eqb "~" c && Ascii.eqb "1" d
          then String "/" (decode_segment rest')
          else if Ascii.eqb "~" c && Ascii.eqb "0" d
          then String "~" (decode_segment rest')
          else
            match rest' with
            | EmptyString => String c (decode_segment rest)
            | String e rest'' =>
                if Ascii.eqb "%" c && (Ascii.eqb "3" d && Ascii.eqb "A" e)
                then String ":" (decode_segment rest'')
                else String c (decode_segment rest)
            end
      end
  end.

(** Whether [s] begins with the character [a]. *)
Definition starts (a : ascii) (s : string) : bool :=
  match s with
  | String x _ => Ascii.eqb a x
  | EmptyString => false
  end.

(** The type text of one component, as [extractComponents] computes it:
    the chain of references is followed first, the node it ends at is
    synthesized at depth 0. *)
Definition componentType (fs : string -> option file) (gas : nat)
    (node : json) (context : SchemaContext) : M string :=
  let* resolved := resolveSchema_gas fs gas node context ∅ in
  jsonTypeToTsType fs (schema resolved) resolved 0.

(** The key [resolveSchema] records for a node, when the node has a
    reference and the key can be built. *)
Definition ref_key (node : json) (context : SchemaContext) : option (json * string) :=
  match field node "$ref" with
  | Ok (Some ref) =>
      if truthy ref then
        match ToString ref with
        | Ok text => Some (ref, path context ++ "::" ++ text)
        | Throw _ => None
        end
      else None
  | _ => None
  end.

(** One link of a chain of references inside a call of [resolveSchema]:
    the node has a reference whose key is new, the key is recorded and the
    reference resolves to the next node. *)
Record chain_state : Type :=
  { at_node : json; at_context : SchemaContext;
    visited : gset string; at_store : store }.

Definition chain_step (fs : string -> option file) (s s' : chain_state) : Prop :=
  exists ref key target,
    ref_key (at_node s) (at_context s) = Some (ref, key)
    /\ (key ∉ visited s)
    /\ resolveRef fs ref (at_context s) (at_store s)
       = Some (Ok (Some target), at_store s')
    /\ at_node s' = schema target
    /\ at_context s' = target
    /\ visited s' = {[ key ]} ∪ visited s.

(** A document with definitions, and a node inside another document. *)
Definition definitions_doc : json :=
  JObj [("definitions",
         JObj [("Pos", JObj [("type", JStr "array");
                             ("items", JArr [JObj [("type", JStr "number")];
                                             JObj [("type", JStr "number")];
                                             JObj [("type", JStr "number")]])]);
               ("Stats", JObj [("type", JStr "object");
                               ("properties",
                                JObj [("hp", JObj [("type", JStr "integer")])])]);
               ("Name", JObj [("type", JStr "string")])])].

Definition definitions_context : SchemaContext :=
  {| schema := definitions_doc; path := "components.json" |}.

(** The states of the chain through the two cyclic documents, entered at
    the node of a.json with nothing visited. *)
Definition cycle_context_a : SchemaContext :=
  {| schema := node_to "b.json"; path := "a.json" |}.

Definition cycle_context_b : SchemaContext :=
  {| schema := node_to "a.json"; path := "b.json" |}.

Definition cycle_state_0 : chain_state :=
  {| at_node := node_to "b.json"; at_context := cycle_context_a;
     visited := ∅; at_store := empty_store |}.

Definition cycle_state_1 : chain_state :=
  {| at_node := node_to "a.json"; at_context := cycle_context_b;
     visited := {[ "a.json::b.json" ]} ∪ ∅;
     at_store := {| schemaCache := <["b.json" := node_to "a.json"]> ∅;
                    reads := ["b.json"] |} |}.

Definition cycle_state_2 : chain_state :=
  {| at_node := node_to "b.json"; at_context := cycle_context_a;
     visited := {[ "b.json::a.json" ]} ∪ ({[ "a.json::b.json" ]} ∪ ∅);
     at_store :=
       {| schemaCache :=
            <["a.json" := node_to "b.json"]>
              (<["b.json" := node_to "a.json"]> ∅);
          reads := ["b.json"; "a.json"] |} |}.

(** The value of a field of a node that is not [null]. *)
Definition field_value (node : json) (name : string) : option json :=
  match field node name with
  | Ok v => v
  | Throw _ => None
  end.




(** A reference into the definitions of its own document. *)
Definition local_ref (name : string) : json :=
  JObj [("$ref", JStr ("#/definitions/" ++ name))].

(** The context [resolveRef] gives for a definition of [definitions_doc]. *)
Definition stats_node : json :=
  JObj [("type", JStr "object");
        ("properties", JObj [("hp", JObj [("type", JStr "integer")])])].

Definition stats_context : SchemaContext :=
  {| schema := stats_node; path := "components.json" |}.

Definition name_context : SchemaContext :=
  {| schema := JObj [("type", JStr "string")]; path := "components.json" |}.






(** The logical path a cross-file reference is loaded from, the part of the
    reference before [#] and the fragment after it. *)
Definition refPath (ref : string) : string := hd EmptyString (firstn 2 (split "#" ref)).














(** *** Schemas as the type [JsonSchema] describes them

    The declared type of each field, for a schema that holds no reference:
    [plain_field] checks one field, [plain_schema] a node with every schema
    nested in it. *)
Definition is_string (v : json) : bool :=
  match v with JStr _ => true | _ => false end.

Definition is_array_of (p : json -> bool) (v : json) : bool :=
  match v with JArr xs => forallb p xs | _ => false end.

Definition plain_field (plain : json -> bool) (name : string) (value : json) : bool :=
  if String.eqb name "$ref" then false
  else if String.eqb name "type"
  then is_string value || is_array_of is_string value
  else if String.eqb name "properties"
  then match value with
       | JObj ps => forallb (fun p => plain (snd p)) ps
       | _ => false
       end
  else if String.eqb name "items"
  then match value with
       | JArr xs => forallb plain xs
       | _ => plain value
       end
  else if String.eqb name "oneOf" || String.eqb name "anyOf"
          || String.eqb name "allOf"
  then is_array_of plain value
  else if String.eqb name "enum" || String.eqb name "examples"
  then is_array_of (fun _ => true) value
  else if String.eqb name "additionalProperties"
  then match value with
       | JBool _ => true
       | _ => plain value
       end
  else if String.eqb name "description" || String.eqb name "title"
  then is_string value
  else if String.eqb name "required"
  then is_array_of is_string value
  else true.

Fixpoint plain_schema (v : json) : bool :=
  match v with
  | JObj kvs => forallb (fun kv => plain_field plain_schema (fst kv) (snd kv)) kvs
  | _ => false
  end.

(** A computation that returns, whatever the store. *)
Definition succeeds {A : Type} (m : M A) : Prop :=
  forall st, exists a st', m st = Some (Ok a, st').

(** A pure computation that returns. *)
Definition returns_value {A : Type} (o : outcome A) : Prop := exists a, o = Ok a.

(** ** Notions used in the further properties *)

(** A segment that needs no escaping and holds no separator. *)
Definition plain_key (key : string) : bool :=
  forallb (fun c => negb (Ascii.eqb c "/") && negb (Ascii.eqb c "~")
                    && negb (Ascii.eqb c "%"))
    (list_ascii_of_string key).

(** The pointer [#/rest]. *)
Definition pointer_to (rest : string) : string := String "#" (String "/" rest).

(** A reference resolved in two steps: first [first], then [second] in the
    context the first step gave. *)
Definition resolveRef_twice (fs : string -> option file) (first second : string)
    (context : SchemaContext) : M (option SchemaContext) :=
  let* middle := resolveRef fs (JStr first) context in
  match middle with
  | Some middle => resolveRef fs (JStr second) middle
  | None => ret None
  end.

(** The text of the [case 'object'] of the closing [switch]. *)
Definition record_text : string := "Record<string, unknown>".

Definition contains_char (c : ascii) (s : string) : bool :=
  existsb (Ascii.eqb c) (list_ascii_of_string s).

(** [s.charAt(0)], where there is one. *)
Definition first_char (s : string) : option ascii := String.get 0 s.

(** How a run may change the store: a cached document stays cached as it
    is, a document newly cached is the one the file system holds at its
    path, and the log of reads is only extended. *)
Definition evolves (fs : string -> option file) (st st' : store) : Prop :=
  (forall p j, schemaCache st !! p = Some j -> schemaCache st' !! p = Some j)
  /\ (forall p j, schemaCache st' !! p = Some j ->
        schemaCache st !! p = Some j \/ fs p = Some (Document j))
  /\ exists more, reads st' = (reads st ++ more)%list.

Definition no_RangeError {A : Type} (o : outcome A) : Prop := o <> Throw RangeError.

(** A computation that changes the store only as [evolves] allows and does
    not raise [RangeError]. *)
Definition orderly {A : Type} (fs : string -> option file) (m : M A) : Prop :=
  forall st out st',
    m st = Some (out, st') -> evolves fs st st' /\ no_RangeError out.

(** A value without any reference in it: no object at any level of nesting
    has a truthy [$ref]. *)
Fixpoint ref_free (v : json) : bool :=
  match v with
  | JObj kvs =>
      negb (truthy_opt (assoc "$ref" kvs))
      && forallb (fun kv => ref_free (snd kv)) kvs
  | JArr xs => forallb ref_free xs
  | _ => true
  end.

Definition ref_free_opt (v : option json) : bool :=
  match v with Some j => ref_free j | None => true end.

(** Two computations with one and the same outcome, whatever the stores
    they start from, which they leave as they are. *)
Definition same {A : Type} (m1 m2 : M A) : Prop :=
  exists out, (forall st, m1 st = Some (out, st)) /\ (forall st, m2 st = Some (out, st)).

(** [toPascalCase] as one scan: [start] says that the next letter or digit
    opens a part. *)
Fixpoint pascal (start : bool) (s : string) : string :=
  match s with
  | EmptyString => EmptyString
  | String c s' =>
      if alnum c
      then String (if start then toUpperCase c else c) (pascal false s')
      else pascal true s'
  end.

Definition all_alnum (s : string) : bool := forallb alnum (list_ascii_of_string s).

(** A root document whose first component lies in a file of its own. *)
Definition health_path : string :=
  "source/behavior/entities/format/components/health.json".

Definition health_doc : json :=
  JObj [("type", JStr "object");
        ("description", JStr "Defines the health of the entity.");
        ("properties", JObj [("value", JObj [("type", JStr "integer")]);
                             ("max", JObj [("type", JStr "integer")])]);
        ("required", JArr [JStr "value"])].

Definition linked_root : json :=
  JObj [("properties",
         JObj [("minecraft:health", JObj [("$ref", JStr "./components/health.json")]);
               ("minecraft:is_baby",
                JObj [("type", JStr "object"); ("title", JStr "Is baby")])])].

Definition linked_files (p : string) : option file :=
  if String.eqb p ROOT_SCHEMA then Some (Document linked_root)
  else if String.eqb p health_path then Some (Document health_doc)
  else None.

Definition linked_store : store :=
  {| schemaCache := <[health_path := health_doc]> (<[ROOT_SCHEMA := linked_root]> ∅);
     reads := [ROOT_SCHEMA; health_path] |}.

(** [Object.entries(schema.properties ?? {})] *)
Definition properties_of (node : json) : list (string * json) :=
  entries (default JNull (nullish (field_value node "properties") (Some (JObj [])))).

Definition linked_components : list ComponentDefinition :=
  [ {| name := "minecraft:health";
       type := "{" ++ newline ++ "  value: number;" ++ newline
               ++ "  max?: number;" ++ newline ++ "}";
       description := Some (JStr "Defines the health of the entity.");
       title := None |};
    {| name := "minecraft:is_baby";
       type := "{" ++ newline ++ "}";
       description := None;
       title := Some (JStr "Is baby") |} ].

(** A value of a field declared [string?]: a text, or nothing. *)
Definition text_or_missing (v : option json) : bool :=
  match v with
  | None | Some (JStr _) => true
  | Some _ => false
  end.

(** A component as the type [ComponentDefinition] declares it. *)
Definition typed_component (component : ComponentDefinition) : bool :=
  text_or_missing (title component) && text_or_missing (description component).

(** The store after the root document alone was loaded. *)
Definition root_loaded (root : json) : store :=
  {| schemaCache := <[ROOT_SCHEMA := root]> ∅; reads := [ROOT_SCHEMA] |}.

(** A document whose definition [Alias] refers to its definition [Name]. *)
Definition alias_doc : json :=
  JObj [("definitions",
         JObj [("Alias", JObj [("$ref", JStr "#/definitions/Name")]);
               ("Name", JObj [("type", JStr "string")])])].

Definition alias_context : SchemaContext :=
  {| schema := alias_doc; path := "components.json" |}.

(** *** Finite file systems *)










(** * Properties *)

(** ** The monad *)

Lemma bind_ext {A B : Type} (m : M A) (k1 k2 : A -> M B) (st : store) :
  (forall a st', k1 a st' = k2 a st') -> bind m k1 st = bind m k2 st.
Proof.
  intros H. unfold bind. destruct (m st) as [[[a|e] st']|]; auto.
Qed.

Lemma Array_map_ext {A B : Type} (f g : A -> M B) (xs : list A) (st : store) :
  (forall x st', f x st' = g x st') -> Array_map f xs st = Array_map g xs st.
Proof.
  intros H. revert st. induction xs as [|x xs IH]; intros st; simpl; [reflexivity|].
  unfold bind at 1 3. rewrite H. destruct (g x st) as [[[y|e] st1]|]; auto.
  unfold bind. rewrite IH. reflexivity.
Qed.

Lemma bind_cong {A B : Type} (m1 m2 : M A) (k1 k2 : A -> M B) (st : store) :
  (forall st', m1 st' = m2 st') ->
  (forall a st', k1 a st' = k2 a st') -> bind m1 k1 st = bind m2 k2 st.
Proof.
  intros Hm Hk. unfold bind. rewrite Hm.
  destruct (m2 st) as [[[a|e] st']|]; auto.
Qed.

Lemma bind_Ok {A B : Type} (m : M A) (k : A -> M B) st (b : B) st' :
  bind m k st = Some (Ok b, st') ->
  exists a st1, m st = Some (Ok a, st1) /\ k a st1 = Some (Ok b, st').
Proof.
  unfold bind. destruct (m st) as [[[a|e] st1]|]; intros H; try discriminate.
  eauto.
Qed.

Lemma bind_Some {A B : Type} (m : M A) (k : A -> M B) st :
  (exists r, m st = Some r) ->
  (forall a st1, m st = Some (Ok a, st1) -> exists r, k a st1 = Some r) ->
  exists r, bind m k st = Some r.
Proof.
  intros [r Hm] Hk. unfold bind. rewrite Hm. destruct r as [[a|e] st1]; eauto.
Qed.

Lemma Array_map_Some {A B : Type} (f : A -> M B) (xs : list A) st :
  (forall x st1, exists r, f x st1 = Some r) ->
  exists r, Array_map f xs st = Some r.
Proof.
  intros Hf. revert st. induction xs as [|x xs IH]; intros st; simpl.
  - eexists; reflexivity.
  - apply bind_Some; [apply Hf|]. intros y st1 _.
    apply bind_Some; [apply IH|]. intros ys st2 _. eexists; reflexivity.
Qed.

Lemma returns_ret {A : Type} (a : A) : returns (ret a).
Proof. intros st. eexists; reflexivity. Qed.

Lemma returns_throw {A : Type} (e : error) : returns (@throw A e).
Proof. intros st. eexists; reflexivity. Qed.

Lemma returns_lift {A : Type} (o : outcome A) : returns (lift o).
Proof. intros st. eexists; reflexivity. Qed.

Lemma returns_bind {A B : Type} (m : M A) (k : A -> M B) :
  returns m -> (forall a, returns (k a)) -> returns (bind m k).
Proof.
  intros Hm Hk st. apply bind_Some; [apply Hm|]. intros a st1 _. apply Hk.
Qed.

Lemma returns_Array_map {A B : Type} (f : A -> M B) (xs : list A) :
  (forall x, returns (f x)) -> returns (Array_map f xs).
Proof.
  intros Hf st. apply Array_map_Some. intros x st1. apply Hf.
Qed.

Lemma returns_loadSchemaContext fs p : returns (loadSchemaContext fs p).
Proof.
  intros st. unfold loadSchemaContext.
  destruct (schemaCache st !! p); [eexists; reflexivity|].
  destruct (fs p) as [[|j]|]; eexists; reflexivity.
Qed.

Ltac returns_step :=
  first
    [ apply returns_ret
    | apply returns_throw
    | apply returns_lift
    | apply returns_loadSchemaContext
    | apply returns_bind; [|intros]
    | apply returns_Array_map; intros
    | match goal with
      | |- returns (if ?b then _ else _) => destruct b
      | |- returns (match ?x with _ => _ end) => destruct x
      | |- returns (let _ := _ in _) => cbv zeta
      end ].

Lemma returns_resolveRef fs ref context : returns (resolveRef fs ref context).
Proof. unfold resolveRef. repeat returns_step. Qed.

(** ** Gas *)

Section Gas.

Variable fs : string -> option file.

Lemma jsonTypeToTsType_gas_S g node context depth :
  jsonTypeToTsType_gas fs (S g) node context depth
  = jsonTypeToTsType_body fs (jsonTypeToTsType_gas fs g) (renderObject_gas fs g)
      node context depth.
Proof. reflexivity. Qed.

Lemma renderObject_gas_S g node context depth :
  renderObject_gas fs (S g) node context depth
  = renderObject_body (jsonTypeToTsType_gas fs g) node context depth.
Proof. reflexivity. Qed.

Lemma jsonTypeToTsType_body_beyond j r node context depth st :
  20 < depth ->
  jsonTypeToTsType_body fs j r node context depth st = Some (Ok "unknown", st).
Proof.
  intros H. unfold jsonTypeToTsType_body.
  destruct (20 <? depth)%nat eqn:E; [reflexivity|].
  apply Nat.ltb_ge in E. lia.
Qed.

Lemma jsonTypeToTsType_body_ext j1 r1 j2 r2 node context depth st :
  (forall n c st', j1 n c (depth + 1) st' = j2 n c (depth + 1) st') ->
  (forall n c st', r1 n c (depth + 1) st' = r2 n c (depth + 1) st') ->
  jsonTypeToTsType_body fs j1 r1 node context depth st
  = jsonTypeToTsType_body fs j2 r2 node context depth st.
Proof.
  intros Hj Hr. unfold jsonTypeToTsType_body, map_array.
  repeat first
    [ reflexivity
    | apply Hj
    | apply Hr
    | apply bind_ext; intros
    | apply Array_map_ext; intros
    | match goal with
      | |- (if ?b then _ else _) _ = _ => destruct b
      | |- match ?x with _ => _ end _ = _ => destruct x
      end
    | apply bind_cong; intros ].
Qed.

Lemma renderObject_loop_ext j1 j2 required indent context depth props lines st :
  (forall n c st', j1 n c (depth + 1) st' = j2 n c (depth + 1) st') ->
  renderObject_loop j1 required indent context depth props lines st
  = renderObject_loop j2 required indent context depth props lines st.
Proof.
  intros Hj. revert lines st.
  induction props as [|[key value] rest IH]; intros lines st; simpl; [reflexivity|].
  apply bind_ext; intros doc st1.
  apply bind_cong; [intros; apply Hj | intros; apply IH].
Qed.

Lemma renderObject_body_ext j1 j2 node context depth st :
  (forall n c st', j1 n c (depth + 1) st' = j2 n c (depth + 1) st') ->
  renderObject_body j1 node context depth st
  = renderObject_body j2 node context depth st.
Proof.
  intros Hj. unfold renderObject_body.
  repeat first
    [ reflexivity
    | apply Hj
    | apply renderObject_loop_ext; assumption
    | apply bind_ext; intros
    | match goal with
      | |- (if ?b then _ else _) _ = _ => destruct b
      | |- match ?x with _ => _ end _ = _ => destruct x
      end
    | apply bind_cong; intros ].
Qed.

End Gas.

Section GasBounds.

Variable fs : string -> option file.

Lemma jsonTypeToTsType_body_returns j r node context depth :
  (forall n c, returns (j n c (depth + 1))) ->
  (forall n c, returns (r n c (depth + 1))) ->
  returns (jsonTypeToTsType_body fs j r node context depth).
Proof.
  intros Hj Hr. unfold jsonTypeToTsType_body, map_array.
  repeat first [ apply Hj | apply Hr | apply returns_resolveRef | returns_step ].
Qed.

Lemma renderObject_loop_returns j required indent context depth props lines :
  (forall n c, returns (j n c (depth + 1))) ->
  returns (renderObject_loop j required indent context depth props lines).
Proof.
  intros Hj. revert lines.
  induction props as [|[key value] rest IH]; intros lines; simpl.
  - apply returns_ret.
  - apply returns_bind; [apply returns_lift|]. intros doc.
    apply returns_bind; [apply Hj|]. intros ty. apply IH.
Qed.

Lemma renderObject_body_returns j node context depth :
  (forall n c, returns (j n c (depth + 1))) ->
  returns (renderObject_body j node context depth).
Proof.
  intros Hj. unfold renderObject_body.
  repeat first
    [ apply Hj | apply renderObject_loop_returns; assumption | returns_step ].
Qed.

(** Enough gas: the call finishes. *)
Lemma gas_enough g :
  (forall depth node context,
      1 <= g -> 23 <= g + depth ->
      returns (jsonTypeToTsType_gas fs g node context depth))
  /\ (forall depth node context,
      2 <= g -> 23 <= g + depth ->
      returns (renderObject_gas fs g node context depth)).
Proof.
  induction g as [|g [IHj IHr]]; [split; intros; lia|].
  split; intros depth node context Hg Hd.
  - rewrite jsonTypeToTsType_gas_S.
    destruct (Nat.lt_ge_cases 20 depth) as [Hb|Hb].
    + intros st. rewrite jsonTypeToTsType_body_beyond by assumption. eauto.
    + apply jsonTypeToTsType_body_returns; intros.
      * apply IHj; lia.
      * apply IHr; lia.
  - rewrite renderObject_gas_S.
    apply renderObject_body_returns; intros. apply IHj; lia.
Qed.

(** Enough gas: more of it changes nothing. *)
Lemma gas_stable g1 :
  (forall g2 depth node context st,
      1 <= g1 -> 23 <= g1 + depth -> 1 <= g2 -> 23 <= g2 + depth ->
      jsonTypeToTsType_gas fs g1 node context depth st
      = jsonTypeToTsType_gas fs g2 node context depth st)
  /\ (forall g2 depth node context st,
      2 <= g1 -> 23 <= g1 + depth -> 2 <= g2 -> 23 <= g2 + depth ->
      renderObject_gas fs g1 node context depth st
      = renderObject_gas fs g2 node context depth st).
Proof.
  induction g1 as [|g1 [IHj IHr]]; [split; intros; lia|].
  split; intros [|g2] depth node context st H1 H2 H3 H4; try lia.
  - rewrite !jsonTypeToTsType_gas_S.
    destruct (Nat.lt_ge_cases 20 depth) as [Hb|Hb].
    + rewrite !jsonTypeToTsType_body_beyond by assumption. reflexivity.
    + apply jsonTypeToTsType_body_ext; intros.
      * apply IHj; lia.
      * apply IHr; lia.
  - rewrite !renderObject_gas_S.
    apply renderObject_body_ext; intros. apply IHj; lia.
Qed.

(** The functions of the script satisfy the equations the source states:
    each is its body over the other. *)
Lemma jsonTypeToTsType_unfold node context depth st :
  jsonTypeToTsType fs node context depth st
  = jsonTypeToTsType_body fs (jsonTypeToTsType fs) (renderObject fs)
      node context depth st.
Proof.
  unfold jsonTypeToTsType at 1. rewrite jsonTypeToTsType_gas_S.
  destruct (Nat.lt_ge_cases 20 depth) as [Hb|Hb].
  - rewrite !jsonTypeToTsType_body_beyond by assumption. reflexivity.
  - apply jsonTypeToTsType_body_ext; intros.
    + unfold jsonTypeToTsType. apply (proj1 (gas_stable _)); lia.
    + unfold renderObject. apply (proj2 (gas_stable _)); lia.
Qed.

Lemma renderObject_unfold node context depth st :
  renderObject fs node context depth st
  = renderObject_body (jsonTypeToTsType fs) node context depth st.
Proof.
  unfold renderObject at 1. rewrite renderObject_gas_S.
  apply renderObject_body_ext; intros.
  unfold jsonTypeToTsType. apply (proj1 (gas_stable _)); lia.
Qed.

End GasBounds.

(** ** Termination and the depth guard *)

Section Termination.

Variable fs : string -> option file.

Lemma jsonTypeToTsType_beyond node context depth st :
  20 < depth ->
  jsonTypeToTsType fs node context depth st = Some (Ok "unknown", st).
Proof.
  intros H. rewrite jsonTypeToTsType_unfold.
  apply jsonTypeToTsType_body_beyond. exact H.
Qed.

Lemma jsonTypeToTsType_returns node context depth :
  returns (jsonTypeToTsType fs node context depth).
Proof. apply (proj1 (gas_enough fs _)); lia. Qed.

Lemma renderObject_returns node context depth :
  returns (renderObject fs node context depth).
Proof. apply (proj2 (gas_enough fs _)); lia. Qed.

End Termination.

(** C2. [jsonTypeToTsType] terminates on every node, context, depth and
    store: the call finishes with a result that no additional gas changes,
    and the function is a solution of the recursive equation the source
    states.  Whenever the depth is beyond 20 the result is "unknown",
    whatever the node.  Two documents whose references form the cycle
    a.json -> b.json -> a.json synthesize to "unknown". *)
Theorem jsonTypeToTsType_terminates :
  forall (fs : string -> option file) (node : json) (context : SchemaContext)
         (depth : nat) (st : store),
    (exists r,
        jsonTypeToTsType fs node context depth st = Some r
        /\ forall extra,
            jsonTypeToTsType_gas fs (S (23 - depth) + extra) node context depth st
            = Some r)
    /\ jsonTypeToTsType fs node context depth st
       = jsonTypeToTsType_body fs (jsonTypeToTsType fs) (renderObject fs)
           node context depth st
    /\ (forall beyond,
           jsonTypeToTsType fs node context (21 + beyond) st
           = Some (Ok "unknown", st))
    /\ fst <$> jsonTypeToTsType cyclic_files (node_to "b.json")
                 {| schema := node_to "b.json"; path := "a.json" |} 0 empty_store
       = Some (Ok "unknown").
Proof.
  intros fs node context depth st. split; [|split; [|split]].
  - destruct (jsonTypeToTsType_returns fs node context depth st) as [r Hr].
    exists r. split; [exact Hr|]. intros extra. rewrite <- Hr.
    unfold jsonTypeToTsType. apply (proj1 (gas_stable fs _)); lia.
  - apply jsonTypeToTsType_unfold.
  - intros beyond. apply jsonTypeToTsType_beyond. lia.
  - vm_compute. reflexivity.
Qed.

(** ** Union construction *)

Lemma filter_nonempty_elem (types : list string) (t : string) :
  t ∈ List.filter nonempty types <-> t ∈ types /\ t <> EmptyString.
Proof.
  rewrite !list_elem_of_In, filter_In. destruct t; simpl; intuition congruence.
Qed.

Lemma filter_sublist {A : Type} (f : A -> bool) (xs : list A) :
  sublist (List.filter f xs) xs.
Proof.
  induction xs as [|x xs IH]; simpl; [constructor|].
  destruct (f x); [apply sublist_skip | apply sublist_cons]; exact IH.
Qed.

(** A [Set] filled from an array holds the first occurrence of each element,
    in the order of the array. *)
Lemma fold_Set_add (xs acc : list string) :
  NoDup acc ->
  exists fresh,
    fold_left Set_add xs acc = (acc ++ fresh)%list
    /\ NoDup (acc ++ fresh)
    /\ sublist fresh xs
    /\ forall t, t ∈ fresh <-> t ∈ xs /\ t ∉ acc.
Proof.
  revert acc. induction xs as [|x xs IH]; intros acc Hacc; simpl.
  - exists []. rewrite app_nil_r.
    split; [reflexivity|]. split; [exact Hacc|]. split; [constructor|].
    intros t. split; [intros H; inversion H | intros [H _]; inversion H].
  - unfold Set_add at 2. case_bool_decide as Hx.
    + destruct (IH acc Hacc) as (fresh & Hf & Hnd & Hsub & Hel).
      exists fresh.
      split; [exact Hf|]. split; [exact Hnd|].
      split; [apply sublist_cons; exact Hsub|].
      intros t. rewrite Hel. split.
      * intros [H Hn]. split; [right; exact H | exact Hn].
      * intros [H Hn]. split; [|exact Hn].
        apply elem_of_cons in H as [->|H]; [contradiction|exact H].
    + assert (Hacc' : NoDup (acc ++ [x])).
      { apply NoDup_app. split; [exact Hacc|]. split; [|apply NoDup_singleton].
        intros y Hy Hy'. apply list_elem_of_singleton in Hy'. subst. contradiction. }
      destruct (IH _ Hacc') as (fresh & Hf & Hnd & Hsub & Hel).
      exists (x :: fresh). rewrite Hf, <- app_assoc. simpl.
      rewrite <- app_assoc in Hnd. simpl in Hnd.
      split; [reflexivity|]. split; [exact Hnd|].
      split; [apply sublist_skip; exact Hsub|].
      intros t. split.
      * intros H. apply elem_of_cons in H as [->|H].
        -- split; [left | exact Hx].
        -- apply Hel in H. destruct H as [H Hn]. split; [right; exact H|].
           intros Hin. apply Hn. apply elem_of_app. left. exact Hin.
      * intros [H Hn]. destruct (decide (t = x)) as [->|Hne]; [left|right].
        apply Hel. split.
        -- apply elem_of_cons in H as [->|H]; [contradiction|exact H].
        -- intros Hin. apply elem_of_app in Hin as [Hin|Hin]; [contradiction|].
           apply list_elem_of_singleton in Hin. contradiction.
Qed.

(** C5. [wrapUnion] keeps the non-empty texts, each once (exact text
    equality) and in the order of their first occurrence; with no survivor
    it returns "unknown", with one survivor that text itself, otherwise the
    survivors joined by " | ".  Scenario B synthesizes to ['a' | 'b']. *)
Theorem wrapUnion_dedup :
  forall types : list string,
    (exists unique,
        NoDup unique
        /\ (forall t, t ∈ unique <-> t ∈ types /\ t <> EmptyString)
        /\ sublist unique types
        /\ wrapUnion types
           = match unique with
             | [] => "unknown"
             | [t] => t
             | _ => join " | " unique
             end)
    /\ fst <$> jsonTypeToTsType no_files scenario_B
                 {| schema := scenario_B; path := "components.json" |} 0 empty_store
       = Some (Ok "'a' | 'b'").
Proof.
  intros types. split; [|vm_compute; reflexivity].
  destruct (fold_Set_add (List.filter nonempty types) [] NoDup_nil_2)
    as (unique & Hf & Hnd & Hsub & Hel).
  simpl in Hf, Hnd. exists unique. split; [exact Hnd|]. split; [|split].
  - intros t. rewrite Hel, filter_nonempty_elem. split; [tauto|].
    intros H. split; [exact H|]. intros Hin. inversion Hin.
  - etransitivity; [exact Hsub|]. apply filter_sublist.
  - unfold wrapUnion, Set_of. rewrite Hf.
    destruct unique as [|t [|t' rest]]; reflexivity.
Qed.

(** ** Pointer resolver *)

Lemma pointer_loop_total (parts : list string) (current : json) :
  exists v, pointer_loop current parts = Ok v.
Proof.
  revert current. induction parts as [|part rest IH]; intros current; simpl.
  - eauto.
  - destruct current as [|b|n|s|xs|kvs]; simpl; eauto.
    + destruct b; eauto.
    + destruct (negb (n =? 0)%Z); eauto.
    + destruct (nonempty s); eauto.
    + match goal with |- context [if ?b then _ else _] => destruct b end;
        simpl; [|eauto].
      destruct (array_index part (length xs)); simpl; [apply IH|].
      destruct (String.eqb part "length"); simpl; apply IH.
    + case_bool_decide; simpl; [apply IH|eauto].
Qed.

Lemma pointer_loop_app (before after : list string) (root : json) :
  pointer_loop root (before ++ after)
  = let? v := pointer_loop root before in pointer_loop v after.
Proof.
  revert root. induction before as [|part rest IH]; intros root; simpl.
  - reflexivity.
  - destruct (truthy root); [|destruct after; reflexivity].
    destruct (typeof_object root); [|destruct after; reflexivity].
    destruct (js_in part root) as [[|]|e]; simpl; try reflexivity.
    + destruct (js_member root part) as [next|e]; simpl; [apply IH|reflexivity].
    + destruct after; reflexivity.
Qed.




(** *** The three replacements against a single reading *)

Lemma prefix_cons (a c : ascii) (p s : string) :
  String.prefix (String a p) (String c s) = Ascii.eqb a c && String.prefix p s.
Proof.
  simpl. destruct (ascii_dec a c) as [->|Hne].
  - rewrite Ascii.eqb_refl. reflexivity.
  - apply Ascii.eqb_neq in Hne. rewrite Hne. reflexivity.
Qed.

Lemma prefix_one (b : ascii) (s : string) :
  String.prefix (String b EmptyString) s = starts b s.
Proof.
  destruct s as [|x s]; [reflexivity|].
  rewrite prefix_cons. simpl. destruct s; apply andb_true_r.
Qed.

Lemma replace_go_skip (pat rep dropped s : string) :
  replace_go pat rep (String.length dropped) (dropped ++ s)
  = replace_go pat rep 0 s.
Proof.
  induction dropped as [|c dropped IH]; simpl; [destruct s; reflexivity|exact IH].
Qed.

Lemma replaceAll_match (a : ascii) (pat rep s : string) :
  replaceAll (String a pat) rep (String a (pat ++ s))
  = rep ++ replaceAll (String a pat) rep s.
Proof.
  unfold replaceAll. cbn [replace_go].
  assert (H : String.prefix (String a pat) (String a (pat ++ s)) = true).
  { rewrite prefix_cons, Ascii.eqb_refl. simpl.
    induction pat as [|x pat IH]; simpl; [destruct s; reflexivity|].
    destruct (ascii_dec x x); [exact IH|contradiction]. }
  rewrite H. cbn [String.length].
  replace (S (String.length pat) - 1) with (String.length pat) by lia.
  rewrite replace_go_skip. reflexivity.
Qed.

Lemma replaceAll_nomatch (pat rep : string) (c : ascii) (s : string) :
  String.prefix pat (String c s) = false ->
  replaceAll pat rep (String c s) = String c (replaceAll pat rep s).
Proof.
  intros H. unfold replaceAll. cbn [replace_go]. rewrite H. reflexivity.
Qed.

Lemma starts_replaceAll (p0 r0 a : ascii) (pat rep s : string) :
  Ascii.eqb a p0 = false -> Ascii.eqb a r0 = false ->
  starts a (replaceAll (String p0 pat) (String r0 rep) s) = starts a s.
Proof.
  intros Hp Hr. destruct s as [|c s]; [reflexivity|].
  destruct (String.prefix (String p0 pat) (String c s)) eqn:E.
  - unfold replaceAll. cbn [replace_go]. rewrite E. simpl.
    rewrite prefix_cons in E. apply andb_prop in E as [E _].
    apply Ascii.eqb_eq in E. subst c. rewrite Hp, Hr. reflexivity.
  - rewrite replaceAll_nomatch by exact E. reflexivity.
Qed.

Lemma starts_cons (a x : ascii) (s : string) :
  starts a (String x s) = Ascii.eqb a x.
Proof. reflexivity. Qed.

Lemma prefix_starts (a : ascii) (p s : string) :
  starts a s = false -> String.prefix (String a p) s = false.
Proof.
  destruct s as [|x s]; [reflexivity|]. simpl starts. intros H.
  rewrite prefix_cons, H. reflexivity.
Qed.

Lemma prefix_split (p s : string) :
  String.prefix p s = true -> exists r, s = p ++ r.
Proof.
  revert s. induction p as [|a p IH]; intros s H.
  - exists s. reflexivity.
  - destruct s as [|x s]; [discriminate|].
    rewrite prefix_cons in H. apply andb_prop in H as [Ha Hp].
    apply Ascii.eqb_eq in Ha. subst x.
    destruct (IH s Hp) as [r ->]. exists r. reflexivity.
Qed.

Lemma prefix_two (a b c : ascii) (s : string) :
  String.prefix (String a (String b EmptyString)) (String c s)
  = Ascii.eqb a c && starts b s.
Proof. rewrite prefix_cons, prefix_one. reflexivity. Qed.

Lemma prefix_three (a b c x : ascii) (s : string) :
  String.prefix (String a (String b (String c EmptyString))) (String x s)
  = Ascii.eqb a x
    && String.prefix (String b (String c EmptyString)) s.
Proof. apply prefix_cons. Qed.

(** The first two passes leave a leading [3A] as it is. *)
Lemma prefix_3A_passes (r : string) :
  String.prefix "3A" (replaceAll "~0" "~" (replaceAll "~1" "/" r))
  = String.prefix "3A" r.
Proof.
  destruct r as [|x r]; [reflexivity|].
  destruct (Ascii.eqb "3" x) eqn:E.
  - apply Ascii.eqb_eq in E. subst x.
    rewrite (replaceAll_nomatch "~1") by reflexivity.
    rewrite (replaceAll_nomatch "~0") by reflexivity.
    rewrite !prefix_two. f_equal.
    rewrite !starts_replaceAll by reflexivity. reflexivity.
  - rewrite (prefix_starts "3" "A" (String x r)) by (simpl; exact E).
    apply prefix_starts. rewrite !starts_replaceAll by reflexivity.
    simpl. exact E.
Qed.

Lemma unescape_other (c : ascii) (r : string) :
  String.prefix "~1" (String c r) = false ->
  String.prefix "~0" (String c r) = false ->
  String.prefix "%3A" (String c r) = false ->
  unescape (String c r) = String c (unescape r).
Proof.
  intros H1 H0 H3. unfold unescape.
  rewrite (replaceAll_nomatch "~1") by exact H1.
  rewrite (replaceAll_nomatch "~0").
  2:{ rewrite prefix_two in *. rewrite starts_replaceAll by reflexivity. exact H0. }
  rewrite (replaceAll_nomatch "%3A").
  2:{ rewrite prefix_three in *. rewrite prefix_3A_passes. exact H3. }
  reflexivity.
Qed.

Lemma replaceAll_match2 (a b : ascii) (rep s : string) :
  replaceAll (String a (String b EmptyString)) rep (String a (String b s))
  = rep ++ replaceAll (String a (String b EmptyString)) rep s.
Proof. exact (replaceAll_match a (String b EmptyString) rep s). Qed.

Lemma replaceAll_match3 (a b c : ascii) (rep s : string) :
  replaceAll (String a (String b (String c EmptyString))) rep
    (String a (String b (String c s)))
  = rep ++ replaceAll (String a (String b (String c EmptyString))) rep s.
Proof. exact (replaceAll_match a (String b (String c EmptyString)) rep s). Qed.

Lemma unescape_tilde1 (r : string) :
  unescape (String "~" (String "1" r)) = String "/" (unescape r).
Proof.
  unfold unescape. rewrite replaceAll_match2.
  change ("/" ++ replaceAll "~1" "/" r) with (String "/" (replaceAll "~1" "/" r)).
  rewrite (replaceAll_nomatch "~0") by reflexivity.
  rewrite (replaceAll_nomatch "%3A") by reflexivity.
  reflexivity.
Qed.

Lemma unescape_tilde0 (r : string) :
  unescape (String "~" (String "0" r)) = String "~" (unescape r).
Proof.
  unfold unescape.
  rewrite (replaceAll_nomatch "~1") by reflexivity.
  rewrite (replaceAll_nomatch "~1") by reflexivity.
  rewrite replaceAll_match2.
  change ("~" ++ replaceAll "~0" "~" (replaceAll "~1" "/" r))
    with (String "~" (replaceAll "~0" "~" (replaceAll "~1" "/" r))).
  rewrite (replaceAll_nomatch "%3A") by reflexivity.
  reflexivity.
Qed.

Lemma unescape_colon (r : string) :
  unescape (String "%" (String "3" (String "A" r))) = String ":" (unescape r).
Proof.
  unfold unescape.
  rewrite !(replaceAll_nomatch "~1") by reflexivity.
  rewrite !(replaceAll_nomatch "~0") by reflexivity.
  rewrite replaceAll_match3. reflexivity.
Qed.

Lemma decode_other (c : ascii) (r : string) :
  String.prefix "~1" (String c r) = false ->
  String.prefix "~0" (String c r) = false ->
  String.prefix "%3A" (String c r) = false ->
  decode_segment (String c r) = String c (decode_segment r).
Proof.
  intros H1 H0 H3. rewrite prefix_two in H1, H0. rewrite prefix_three in H3.
  destruct r as [|d r]; [reflexivity|].
  rewrite starts_cons in H1, H0. cbn [decode_segment]. rewrite H1, H0.
  destruct r as [|e r]; [reflexivity|].
  rewrite prefix_two, starts_cons in H3. rewrite H3. reflexivity.
Qed.

Lemma unescape_decode_bounded (n : nat) (s : string) :
  String.length s <= n -> unescape s = decode_segment s.
Proof.
  revert s. induction n as [|n IH]; intros s Hlen.
  - destruct s; [reflexivity|simpl in Hlen; lia].
  - destruct s as [|c r]; [reflexivity|]. simpl in Hlen.
    destruct (String.prefix "~1" (String c r)) eqn:H1.
    { apply prefix_split in H1 as [r' E]. cbv [String.append] in E.
      injection E as -> ->.
      rewrite unescape_tilde1, IH by (simpl in Hlen; lia). reflexivity. }
    destruct (String.prefix "~0" (String c r)) eqn:H0.
    { apply prefix_split in H0 as [r' E]. cbv [String.append] in E.
      injection E as -> ->.
      rewrite unescape_tilde0, IH by (simpl in Hlen; lia). reflexivity. }
    destruct (String.prefix "%3A" (String c r)) eqn:H3.
    { apply prefix_split in H3 as [r' E]. cbv [String.append] in E.
      injection E as -> ->.
      rewrite unescape_colon, IH by (simpl in Hlen; lia). reflexivity. }
    rewrite unescape_other, decode_other by assumption.
    rewrite IH by lia. reflexivity.
Qed.

(** The source's three replacements in a row are the single reading. *)
Lemma unescape_decode (s : string) : unescape s = decode_segment s.
Proof. apply (unescape_decode_bounded (String.length s)). lia. Qed.

Lemma substring_all (s : string) : String.substring 0 (String.length s) s = s.
Proof. induction s as [|c s IH]; simpl; [reflexivity|]. rewrite IH. reflexivity. Qed.

Lemma pointer_parts_decode (rest : string) :
  pointer_parts (String "#" (String "/" rest))
  = List.map decode_segment (split "/" rest).
Proof.
  unfold pointer_parts. cbn [String.length]. cbn [Nat.sub String.substring].
  rewrite Nat.sub_0_r, substring_all.
  apply map_ext. intros s. apply unescape_decode.
Qed.

(** C9. A pointer that does not start with [#/], the pointer [#] among
    them, gives the root node back unchanged.  For a pointer [#/a/b/c] the
    text after [#/] is cut at the separators and every segment is unescaped
    before the lookup, [~1] becoming [/], [~0] becoming [~] and [%3A]
    becoming [:]. *)
Theorem getByPointer_root_and_segments :
  forall (root : json) (pointer : string),
    (startsWith pointer "#/" = false -> getByPointer root pointer = Ok root)
    /\ getByPointer root "#" = Ok root
    /\ (forall rest,
           getByPointer root (String "#" (String "/" rest))
           = pointer_loop root (List.map decode_segment (split "/" rest)))
    /\ List.map unescape ["a~1b"; "~0"; "minecraft%3Ahealth"; "~01"]
       = ["a/b"; "~"; "minecraft:health"; "~1"].
Proof.
  intros root pointer. split; [|split; [|split]].
  - intros H. unfold getByPointer. rewrite H. reflexivity.
  - reflexivity.
  - intros rest. unfold getByPointer.
    replace (startsWith (String "#" (String "/" rest)) "#/") with true.
    + simpl negb. cbv iota. rewrite pointer_parts_decode. reflexivity.
    + unfold startsWith. rewrite prefix_cons, prefix_one. reflexivity.
  - vm_compute. reflexivity.
Qed.

Lemma getByPointer_root_and_segments_witness :
  getByPointer (JObj [("type", JStr "string")]) "definitions/Pos"
  = Ok (JObj [("type", JStr "string")]).
Proof.
  apply (proj1 (getByPointer_root_and_segments
                  (JObj [("type", JStr "string")]) "definitions/Pos")).
  reflexivity.
Defined.

(** ** Every synthesized text is non-empty *)

Lemma nonempty_app_l (a b : string) : nonempty a = true -> nonempty (a ++ b) = true.
Proof. destruct a; [discriminate|reflexivity]. Qed.

Lemma nonempty_join_head (sep x : string) (xs : list string) :
  nonempty x = true -> nonempty (join sep (x :: xs)) = true.
Proof.
  intros H. destruct xs; simpl; [exact H|]. apply nonempty_app_l. exact H.
Qed.

Lemma nonempty_show_Z (n : Z) : nonempty (show_Z n) = true.
Proof.
  unfold show_Z. destruct (Z.to_int n) as [d|d]; simpl; [|reflexivity].
  destruct d; reflexivity.
Qed.

Lemma nonempty_stringify (v : json) : nonempty (stringify v) = true.
Proof.
  destruct v as [|[|]| | | |]; try reflexivity. apply nonempty_show_Z.
Qed.

Lemma nonempty_switch_type (type : option json) :
  nonempty (switch_type type) = true.
Proof.
  unfold switch_type.
  repeat match goal with |- context [if ?b then _ else _] => destruct b end;
    reflexivity.
Qed.

Lemma Set_of_elements (xs : list string) (t : string) :
  t ∈ Set_of xs <-> t ∈ xs.
Proof.
  unfold Set_of. destruct (fold_Set_add xs [] NoDup_nil_2) as (u & -> & _ & _ & H).
  simpl. rewrite H. split; [tauto|]. intros Hin. split; [exact Hin|].
  intros Hnil. inversion Hnil.
Qed.

Lemma nonempty_wrapUnion (types : list string) : nonempty (wrapUnion types) = true.
Proof.
  unfold wrapUnion.
  pose proof (Set_of_elements (List.filter nonempty types)) as H.
  destruct (Set_of (List.filter nonempty types)) as [|t [|t' rest]]; simpl.
  - reflexivity.
  - assert (Ht : t ∈ List.filter nonempty types) by (apply H; left).
    apply filter_nonempty_elem in Ht as [_ Ht]. destruct t; [contradiction|reflexivity].
  - assert (Ht : t ∈ List.filter nonempty types) by (apply H; left).
    apply filter_nonempty_elem in Ht as [_ Ht]. destruct t; [contradiction|reflexivity].
Qed.

Lemma Array_map_Forall {A B : Type} (f : A -> M B) (P : B -> Prop)
    (xs : list A) st ys st' :
  (forall x st1 y st2, f x st1 = Some (Ok y, st2) -> P y) ->
  Array_map f xs st = Some (Ok ys, st') -> Forall P ys.
Proof.
  intros Hf. revert st ys st'.
  induction xs as [|x xs IH]; intros st ys st' H; simpl in H.
  - injection H as <- _. constructor.
  - apply bind_Ok in H as (y & st1 & Hy & H).
    apply bind_Ok in H as (ys' & st2 & Hys & H).
    injection H as <- _. constructor; eauto.
Qed.

Lemma filter_all_nonempty (types : list string) :
  Forall (fun t => nonempty t = true) types -> List.filter nonempty types = types.
Proof.
  induction 1 as [|t ts Ht _ IH]; simpl; [reflexivity|]. rewrite Ht, IH. reflexivity.
Qed.

Lemma renderObject_loop_head j required indent context depth props lines st
    lines' st' :
  renderObject_loop j required indent context depth props lines st
  = Some (Ok lines', st') ->
  exists more, lines' = (lines ++ more)%list.
Proof.
  revert lines st. induction props as [|[key value] rest IH]; intros lines st H;
    simpl in H.
  - injection H as <- _. exists []. rewrite app_nil_r. reflexivity.
  - apply bind_Ok in H as (doc & st1 & _ & H).
    apply bind_Ok in H as (ty & st2 & _ & H).
    apply IH in H as [more ->]. unfold push.
    destruct (nonempty doc); unfold push; rewrite <- ?app_assoc; eauto.
Qed.

Ltac invert_M :=
  repeat match goal with
    | H : bind _ _ _ = Some (Ok _, _) |- _ =>
        let a := fresh "a" in let st := fresh "st" in
        let Ha := fresh "Ha" in
        apply bind_Ok in H as (a & st & Ha & H)
    | H : ret _ _ = Some (Ok _, _) |- _ => injection H as <- <-
    | H : throw _ _ = Some (Ok _, _) |- _ => discriminate H
    | H : (if ?b then _ else _) _ = Some (Ok _, _) |- _ => destruct b eqn:?
    | H : match ?x with _ => _ end _ = Some (Ok _, _) |- _ => destruct x eqn:?
    end.

Section Nonempty.

Variable fs : string -> option file.

Lemma renderObject_body_nonempty j node context depth st s st' :
  renderObject_body j node context depth st = Some (Ok s, st') ->
  nonempty s = true.
Proof.
  unfold renderObject_body. intros H.
  apply bind_Ok in H as (properties & st1 & _ & H).
  apply bind_Ok in H as (required_field & st2 & _ & H).
  apply bind_Ok in H as (required & st3 & _ & H).
  apply bind_Ok in H as (lines & st4 & Hloop & H).
  apply bind_Ok in H as (ap & st5 & _ & H).
  apply bind_Ok in H as (lines' & st6 & Hap & H).
  apply renderObject_loop_head in Hloop as [more ->].
  assert (Hhead : exists more', lines' = ("{" :: more')%list).
  { invert_M; unfold push; simpl; eauto. }
  destruct Hhead as [more' ->].
  destruct depth; [discriminate|]. injection H as <- _.
  unfold push. simpl app. apply nonempty_join_head. reflexivity.
Qed.

Lemma jsonTypeToTsType_body_nonempty j r node context depth st s st' :
  (forall n c st1 s1 st2,
      j n c (depth + 1) st1 = Some (Ok s1, st2) -> nonempty s1 = true) ->
  (forall n c st1 s1 st2,
      r n c (depth + 1) st1 = Some (Ok s1, st2) -> nonempty s1 = true) ->
  jsonTypeToTsType_body fs j r node context depth st = Some (Ok s, st') ->
  nonempty s = true.
Proof.
  intros Hj Hr. unfold jsonTypeToTsType_body, map_array. intros H.
  invert_M;
    try reflexivity;
    try apply nonempty_wrapUnion;
    try apply nonempty_stringify;
    try apply nonempty_switch_type;
    try (eapply Hj; eassumption);
    try (eapply Hr; eassumption);
    try apply nonempty_show_Z;
    try (match goal with |- context [if ?b then _ else _] => destruct b end;
         reflexivity).
  match goal with
  | Ha : Array_map _ _ _ = Some (Ok ?l, _) |- _ =>
      apply (Array_map_Forall _ (fun t => nonempty t = true)) in Ha;
      [|intros; eapply Hj; eassumption];
      destruct Ha as [|t ts Ht _]; [reflexivity|];
      apply nonempty_join_head; exact Ht
  end.
Qed.

Lemma gas_nonempty g :
  (forall node context depth st s st',
      jsonTypeToTsType_gas fs g node context depth st = Some (Ok s, st') ->
      nonempty s = true)
  /\ (forall node context depth st s st',
      renderObject_gas fs g node context depth st = Some (Ok s, st') ->
      nonempty s = true).
Proof.
  induction g as [|g [IHj IHr]]; [split; intros; discriminate|].
  split; intros node context depth st s st' H.
  - rewrite jsonTypeToTsType_gas_S in H.
    eapply jsonTypeToTsType_body_nonempty; [| |exact H]; intros; eauto.
  - rewrite renderObject_gas_S in H.
    eapply renderObject_body_nonempty; exact H.
Qed.

End Nonempty.

(** ** Chains of references *)

Section Chains.

Variable fs : string -> option file.

Lemma resolveSchema_gas_key g node context seen st ref key :
  ref_key node context = Some (ref, key) ->
  resolveSchema_gas fs (S g) node context seen st
  = if bool_decide (key ∈ seen)
    then Some (Ok {| schema := node; path := path context |}, st)
    else (let* target := resolveRef fs ref context in
          match target with
          | None => ret {| schema := node; path := path context |}
          | Some target =>
              resolveSchema_gas fs g (schema target) target ({[ key ]} ∪ seen)
          end) st.
Proof.
  unfold ref_key. intros H. cbn [resolveSchema_gas].
  destruct (field node "$ref") as [[r|]|e] eqn:Ef; try discriminate.
  destruct (truthy r) eqn:Et; [|discriminate].
  destruct (ToString r) as [text|e] eqn:Es; [|discriminate].
  injection H as <- <-.
  unfold bind, lift. cbn [truthy_opt from_option id]. rewrite Et.
  cbn [negb]. rewrite Es.
  destruct (bool_decide _); reflexivity.
Qed.

Lemma resolveSchema_gas_chain n (s s' : chain_state) ref key :
  nsteps (chain_step fs) n s s' ->
  ref_key (at_node s') (at_context s') = Some (ref, key) ->
  key ∈ visited s' ->
  forall extra,
    resolveSchema_gas fs (S n + extra) (at_node s) (at_context s) (visited s)
      (at_store s)
    = Some (Ok {| schema := at_node s'; path := path (at_context s') |},
            at_store s').
Proof.
  induction 1 as [s|n s s1 s' Hstep _ IH]; intros Hkey Hin extra.
  - cbn [Nat.add]. rewrite (resolveSchema_gas_key _ _ _ _ _ _ _ Hkey).
    rewrite bool_decide_eq_true_2 by exact Hin. reflexivity.
  - destruct Hstep as (ref0 & key0 & target & Hk0 & Hnew & Hres & Hn & Hc & Hv).
    cbn [Nat.add]. rewrite (resolveSchema_gas_key _ _ _ _ _ _ _ Hk0).
    rewrite bool_decide_eq_false_2 by exact Hnew.
    unfold bind. rewrite Hres.
    specialize (IH Hkey Hin extra). rewrite Hn, Hc, Hv in IH. exact IH.
Qed.

End Chains.

(** C7. Inside one call of [resolveSchema], from any entry node and visited
    set: when the chain of resolutions reaches a node whose key
    (document path, reference) is already in the visited set, the call
    returns that node, still bearing its reference, with the path of its
    document, and raises nothing.  Entered at a.json, the cycle
    a.json -> b.json -> a.json returns the node of a.json. *)
Theorem resolveSchema_cycle_stops :
  forall (fs : string -> option file) (n : nat) (s s' : chain_state)
         (ref : json) (key : string),
    nsteps (chain_step fs) n s s' ->
    ref_key (at_node s') (at_context s') = Some (ref, key) ->
    key ∈ visited s' ->
    (forall extra,
        resolveSchema_gas fs (S n + extra) (at_node s) (at_context s) (visited s)
          (at_store s)
        = Some (Ok {| schema := at_node s'; path := path (at_context s') |},
                at_store s'))
    /\ truthy_opt (match field (at_node s') "$ref" with
                   | Ok r => r
                   | Throw _ => None
                   end) = true.
Proof.
  intros fs n s s' ref key Hsteps Hkey Hin. split.
  - eapply resolveSchema_gas_chain; eassumption.
  - unfold ref_key in Hkey.
    destruct (field (at_node s') "$ref") as [[r|]|e]; try discriminate.
    simpl. destruct (truthy r); [reflexivity|discriminate].
Qed.

Lemma resolveSchema_cycle_stops_witness :
  resolveSchema_gas cyclic_files 3 (node_to "b.json") cycle_context_a ∅ empty_store
  = Some (Ok {| schema := node_to "b.json"; path := "a.json" |},
          at_store cycle_state_2).
Proof.
  refine (proj1 (resolveSchema_cycle_stops cyclic_files 2
                   cycle_state_0 cycle_state_2
                   (JStr "b.json") "a.json::b.json" _ _ _) 0).
  - apply (nsteps_l _ _ _ cycle_state_1).
    + exists (JStr "b.json"), "a.json::b.json", cycle_context_b.
      split; [vm_compute; reflexivity|].
      split; [apply (bool_decide_unpack _); vm_compute; reflexivity|].
      split; [vm_compute; reflexivity|].
      split; [reflexivity|]. split; reflexivity.
    + apply (nsteps_l _ _ _ cycle_state_2); [|apply nsteps_O].
      exists (JStr "a.json"), "b.json::a.json", cycle_context_a.
      split; [vm_compute; reflexivity|].
      split; [apply (bool_decide_unpack _); vm_compute; reflexivity|].
      split; [vm_compute; reflexivity|].
      split; [reflexivity|]. split; reflexivity.
  - vm_compute. reflexivity.
  - apply (bool_decide_unpack _). vm_compute. reflexivity.
Defined.

(** ** References in the synthesizer *)

Section References.

Variable fs : string -> option file.

Lemma jsonTypeToTsType_ref node context depth ref st :
  depth <= 20 ->
  field node "$ref" = Ok (Some ref) ->
  truthy ref = true ->
  jsonTypeToTsType fs node context depth st
  = (let* target := resolveRef fs ref context in
     match target with
     | Some target => jsonTypeToTsType fs (schema target) target (depth + 1)
     | None => ret "unknown"
     end) st.
Proof.
  intros Hd Hf Ht. rewrite jsonTypeToTsType_unfold. unfold jsonTypeToTsType_body.
  destruct (20 <? depth)%nat eqn:E; [apply Nat.ltb_lt in E; lia|].
  unfold bind at 1, lift at 1. rewrite Hf. cbn [truthy_opt from_option id].
  rewrite Ht. reflexivity.
Qed.

Lemma resolveRef_Ok_string ref context st o st' :
  resolveRef fs ref context st = Some (Ok o, st') -> exists text, ref = JStr text.
Proof.
  destruct ref; try discriminate. eauto.
Qed.

Lemma ref_key_string node context text :
  field node "$ref" = Ok (Some (JStr text)) ->
  truthy (JStr text) = true ->
  ref_key node context = Some (JStr text, path context ++ "::" ++ text).
Proof.
  intros Hf Ht. unfold ref_key. rewrite Hf, Ht. reflexivity.
Qed.

(** A chain that ends at a node without reference met no visited key and
    no failing reference: a smaller visited set and more gas give the same
    end. *)
Lemma resolveSchema_gas_shrink g :
  forall node context seen st resolved st',
    resolveSchema_gas fs g node context seen st = Some (Ok resolved, st') ->
    truthy_opt (field_value (schema resolved) "$ref") = false ->
    forall seen' extra,
      seen' ⊆ seen ->
      resolveSchema_gas fs (g + extra) node context seen' st
      = Some (Ok resolved, st').
Proof.
  induction g as [|g IH]; intros node context seen st resolved st' H Hres seen'
    extra Hsub; [discriminate|].
  cbn [Nat.add]. cbn [resolveSchema_gas] in *.
  unfold bind at 1, lift at 1 in H. unfold bind at 1, lift at 1.
  destruct (field node "$ref") as [r|e] eqn:Ef; [|discriminate].
  destruct (negb (truthy_opt r)) eqn:Et; [exact H|].
  unfold bind at 1, lift at 1 in H. unfold bind at 1, lift at 1.
  destruct (ToString (default JNull r)) as [text|e]; [|discriminate].
  assert (Hnode : forall p st1,
             Some (Ok {| schema := node; path := p |}, st1)
             = Some (Ok resolved, st') -> False).
  { intros p st1 Heq. injection Heq as <- _. simpl in Hres.
    unfold field_value in Hres. rewrite Ef in Hres.
    rewrite Hres in Et. discriminate. }
  case_bool_decide as Hin; [exfalso; eapply Hnode; exact H|].
  rewrite bool_decide_eq_false_2 by set_solver.
  unfold bind in *.
  destruct (resolveRef fs (default JNull r) context st) as [[[[t|]|e] st1]|];
    try discriminate.
  - eapply IH; [exact H|exact Hres|]. apply union_mono_l. exact Hsub.
  - exfalso. eapply Hnode. exact H.
Qed.

End References.




(** C3, as the code has it.  For a node whose reference resolves to a
    target, synthesizing the node at a depth within the guard is
    synthesizing the target in the target's own context one level deeper.
    For a component, whose chain of references [extractComponents] follows
    first: when the chain from the node ends at a node without reference
    (resolvable, acyclic), the component text of the node is the component
    text of the dereferenced target in the target's own context. *)
Theorem reference_transparent :
  forall (fs : string -> option file) (node : json) (context : SchemaContext)
         (ref : json) (target : SchemaContext) (st st1 : store),
    field node "$ref" = Ok (Some ref) ->
    truthy ref = true ->
    resolveRef fs ref context st = Some (Ok (Some target), st1) ->
    (forall depth,
        depth <= 20 ->
        jsonTypeToTsType fs node context depth st
        = jsonTypeToTsType fs (schema target) target (depth + 1) st1)
    /\ (forall gas resolved st2,
           resolveSchema_gas fs gas node context ∅ st = Some (Ok resolved, st2) ->
           truthy_opt (field_value (schema resolved) "$ref") = false ->
           componentType fs gas node context st
           = componentType fs gas (schema target) target st1).
Proof.
  intros fs node context ref target st st1 Hf Ht Hres. split.
  - intros depth Hd.
    rewrite (jsonTypeToTsType_ref fs node context depth ref) by assumption.
    unfold bind. rewrite Hres. reflexivity.
  - intros gas resolved st2 Hchain Hend.
    destruct gas as [|g]; [discriminate|].
    destruct (resolveRef_Ok_string fs _ _ _ _ _ Hres) as [text ->].
    pose proof (ref_key_string node context text Hf Ht) as Hk.
    unfold componentType, bind. rewrite Hchain.
    rewrite (resolveSchema_gas_key fs _ _ _ _ _ _ _ Hk) in Hchain.
    rewrite bool_decide_eq_false_2 in Hchain by apply not_elem_of_empty.
    unfold bind in Hchain. rewrite Hres in Hchain.
    pose proof (resolveSchema_gas_shrink fs g _ _ _ _ _ _ Hchain Hend ∅ 1
                  (empty_subseteq _)) as Hshrunk.
    rewrite Nat.add_1_r in Hshrunk. rewrite Hshrunk. reflexivity.
Qed.

Lemma reference_transparent_witness :
  jsonTypeToTsType no_files (local_ref "Stats") definitions_context 0 empty_store
  = jsonTypeToTsType no_files stats_node stats_context 1 empty_store
  /\ componentType no_files 2 (local_ref "Stats") definitions_context empty_store
     = componentType no_files 2 stats_node stats_context empty_store.
Proof.
  pose proof (reference_transparent no_files (local_ref "Stats")
                definitions_context (JStr "#/definitions/Stats") stats_context
                empty_store empty_store eq_refl eq_refl eq_refl) as [Hsyn Hcomp].
  split.
  - apply (Hsyn 0). lia.
  - apply (Hcomp 2 stats_context empty_store); reflexivity.
Defined.

(** At one and the same depth the two syntheses differ.  The depth counts
    the reference: a record reached through a reference is laid out one
    level deeper, and at the edge of the guard the reference is cut where
    its target is not. *)
Lemma reference_not_transparent_at_same_depth :
  resolveRef no_files (JStr "#/definitions/Stats") definitions_context empty_store
  = Some (Ok (Some stats_context), empty_store)
  /\ jsonTypeToTsType no_files (local_ref "Stats") definitions_context 0 empty_store
     <> jsonTypeToTsType no_files stats_node stats_context 0 empty_store
  /\ resolveRef no_files (JStr "#/definitions/Name") definitions_context empty_store
     = Some (Ok (Some name_context), empty_store)
  /\ jsonTypeToTsType no_files (local_ref "Name") definitions_context 20 empty_store
     = Some (Ok "unknown", empty_store)
  /\ jsonTypeToTsType no_files (schema name_context) name_context 20 empty_store
     = Some (Ok "string", empty_store).
Proof.
  split; [reflexivity|]. split; [vm_compute; discriminate|].
  split; [reflexivity|]. split; reflexivity.
Qed.

(** ** Records *)




(** ** Paths *)

Lemma append_assoc (a b c : string) : (a ++ b) ++ c = a ++ (b ++ c).
Proof.
  induction a as [|x a IH]; [reflexivity|].
  change (String x ((a ++ b) ++ c) = String x (a ++ (b ++ c))).
  rewrite IH. reflexivity.
Qed.

Lemma append_cons (x : ascii) (a b : string) : String x a ++ b = String x (a ++ b).
Proof. reflexivity. Qed.

Lemma nonempty_app (a b : string) : nonempty a = true -> nonempty (a ++ b) = true.
Proof. destruct a; [discriminate|reflexivity]. Qed.

Lemma endsWith_app (a b : string) (c : ascii) :
  nonempty b = true -> endsWith (a ++ b) c = endsWith b c.
Proof.
  intros Hb. induction a as [|x a IH]; [reflexivity|].
  rewrite append_cons. cbn [endsWith].
  destruct (a ++ b) eqn:E; [|exact IH].
  destruct a; [|discriminate]. change (b = EmptyString) in E. subst b. discriminate.
Qed.

Lemma startsWith_app (a b : string) (c : ascii) :
  nonempty a = true ->
  startsWith (a ++ b) (String c EmptyString) = startsWith a (String c EmptyString).
Proof.
  intros Ha. unfold startsWith. rewrite !prefix_one.
  destruct a; [discriminate|reflexivity].
Qed.

Lemma split_not_nil (sep : ascii) (s : string) : split sep s <> [].
Proof.
  destruct s as [|c s]; simpl; [discriminate|].
  destruct (Ascii.eqb c sep); [discriminate|].
  destruct (split sep s); discriminate.
Qed.

Lemma split_app (sep : ascii) (a b : string) :
  split sep (a ++ String sep b) = (split sep a ++ split sep b)%list.
Proof.
  induction a as [|x a IH].
  - change (EmptyString ++ String sep b) with (String sep b). cbn [split].
    rewrite Ascii.eqb_refl. reflexivity.
  - rewrite append_cons. cbn [split]. rewrite IH.
    destruct (Ascii.eqb x sep); [reflexivity|].
    destruct (split sep a) as [|y ys] eqn:E; [|reflexivity].
    exfalso. exact (split_not_nil sep a E).
Qed.

Lemma split_plain (seg : string) :
  forallb (fun c => negb (Ascii.eqb c "/")) (list_ascii_of_string seg) = true ->
  split "/" seg = [seg].
Proof.
  induction seg as [|c seg IH]; [reflexivity|]. simpl.
  intros H. apply andb_prop in H as [Hc Hs].
  apply negb_true_iff in Hc. rewrite Hc, (IH Hs). reflexivity.
Qed.


(** A stretch of segments that folds to nothing can be taken out of a path. *)
Lemma normalize_neutral (a m b : string) :
  nonempty a = true -> nonempty b = true ->
  (forall allow stack,
      fold_left (posix.normalize_step allow) (split "/" m) stack = stack) ->
  posix.normalize (a ++ "/" ++ m ++ "/" ++ b) = posix.normalize (a ++ "/" ++ b).
Proof.
  intros Ha Hb Hm. unfold posix.normalize.
  rewrite !nonempty_app by exact Ha. cbn [negb].
  rewrite !startsWith_app by exact Ha.
  replace (endsWith (a ++ "/" ++ m ++ "/" ++ b) "/") with (endsWith b "/").
  2:{ rewrite <- !append_assoc. rewrite endsWith_app by exact Hb. reflexivity. }
  replace (endsWith (a ++ "/" ++ b) "/") with (endsWith b "/").
  2:{ rewrite <- !append_assoc. rewrite endsWith_app by exact Hb. reflexivity. }
  replace (posix.normalizeString (a ++ "/" ++ m ++ "/" ++ b)
             (negb (startsWith a "/")))
    with (posix.normalizeString (a ++ "/" ++ b) (negb (startsWith a "/")));
    [reflexivity|].
  unfold posix.normalizeString.
  change ("/" ++ m ++ "/" ++ b) with (String "/" (m ++ String "/" b)).
  change ("/" ++ b) with (String "/" b).
  rewrite !split_app, !fold_left_app, Hm. reflexivity.
Qed.

Lemma join_nonempty (a b : string) :
  nonempty a = true -> nonempty b = true ->
  posix.join a b = posix.normalize (a ++ "/" ++ b).
Proof. intros Ha Hb. unfold posix.join. rewrite Ha, Hb. reflexivity. Qed.




(** ** The schema store *)










Section StoreInvariant.

Variable fs : string -> option file.












End StoreInvariant.




(** ** Schemas of the declared type are synthesized without exception *)

Lemma succeeds_ret {A : Type} (a : A) : succeeds (ret a).
Proof. intros st. eexists _, _. reflexivity. Qed.

Lemma succeeds_bind {A B : Type} (m : M A) (k : A -> M B) :
  succeeds m -> (forall a, succeeds (k a)) -> succeeds (bind m k).
Proof.
  intros Hm Hk st. destruct (Hm st) as (a & st1 & Ha).
  unfold bind. rewrite Ha. apply Hk.
Qed.

Lemma succeeds_Array_map {A B : Type} (f : A -> M B) (xs : list A) :
  Forall (fun x => succeeds (f x)) xs -> succeeds (Array_map f xs).
Proof.
  induction 1 as [|x xs Hx _ IH]; simpl.
  - apply succeeds_ret.
  - apply succeeds_bind; [exact Hx|]. intros y.
    apply succeeds_bind; [exact IH|]. intros ys. apply succeeds_ret.
Qed.

Lemma bind_lift_Ok {A B : Type} (a : A) (k : A -> M B) :
  bind (lift (Ok a)) k = k a.
Proof. reflexivity. Qed.

Lemma plain_assoc (kvs : list (string * json)) (name : string) (v : json) :
  plain_schema (JObj kvs) = true ->
  assoc name kvs = Some v ->
  plain_field plain_schema name v = true.
Proof.
  cbn [plain_schema]. induction kvs as [|[k w] kvs IH]; [discriminate|].
  cbn [forallb assoc fst snd]. intros H Ha. apply andb_prop in H as [Hk Hrest].
  destruct (String.eqb k name) eqn:E.
  - apply String.eqb_eq in E. subst k. injection Ha as <-. exact Hk.
  - exact (IH Hrest Ha).
Qed.

Lemma forallb_Forall_plain {A : Type} (p : A -> bool) (xs : list A) :
  forallb p xs = true -> Forall (fun x => p x = true) xs.
Proof.
  induction xs as [|x xs IH]; simpl; [constructor|].
  intros H. apply andb_prop in H as [Hx Hxs]. constructor; auto.
Qed.

Lemma plain_assoc_set (kvs : list (string * json)) (member : json) :
  plain_schema (JObj kvs) = true ->
  is_string member = true ->
  plain_schema (JObj (assoc_set "type" member kvs)) = true.
Proof.
  cbn [plain_schema]. intros H Hm.
  induction kvs as [|[k w] kvs IH]; cbn [assoc_set forallb fst snd].
  - unfold plain_field. cbn. rewrite Hm. reflexivity.
  - cbn [forallb fst snd] in H. apply andb_prop in H as [Hk Hrest].
    destruct (String.eqb k "type"); cbn [forallb fst snd].
    + rewrite Hrest. unfold plain_field. cbn. rewrite Hm. reflexivity.
    + rewrite Hk, (IH Hrest). reflexivity.
Qed.

Lemma returns_value_Ok {A : Type} (a : A) : returns_value (Ok a).
Proof. exists a. reflexivity. Qed.

Lemma returns_value_obind {A B : Type} (m : outcome A) (k : A -> outcome B) :
  returns_value m -> (forall a, returns_value (k a)) -> returns_value (obind m k).
Proof. intros [a ->] Hk. apply Hk. Qed.

Ltac returns_value_step :=
  first
    [ apply returns_value_Ok
    | apply returns_value_obind; [|intros]
    | match goal with
      | |- returns_value (if ?b then _ else _) => destruct b
      | |- returns_value (match ?x with _ => _ end) => destruct x
      end ].

Lemma generateJSDoc_plain (value : json) (depth : nat) :
  plain_schema value = true -> returns_value (generateJSDoc value depth).
Proof.
  destruct value as [| | | | |kvs]; try discriminate. intros Hp.
  pose proof (plain_assoc kvs "title" ) as Ht.
  pose proof (plain_assoc kvs "description") as Hd.
  pose proof (plain_assoc kvs "examples") as He.
  unfold generateJSDoc. cbn [field obind].
  destruct (assoc "title" kvs) as [t|];
    [specialize (Ht t Hp eq_refl); destruct t; try discriminate Ht|clear Ht];
  (destruct (assoc "description" kvs) as [d|];
    [specialize (Hd d Hp eq_refl); destruct d; try discriminate Hd|clear Hd]);
  (destruct (assoc "examples" kvs) as [e|];
    [specialize (He e Hp eq_refl); destruct e; try discriminate He|clear He]);
  cbn [truthy truthy_opt js_member from_option id ToString strict_equal];
  repeat returns_value_step.
Qed.

Section PlainSchemas.

Variable fs : string -> option file.

(** Case analysis on a field of a plain node, by its declared type. *)
Ltac field_case kvs Hp name :=
  let H := fresh "Hfield" in
  pose proof (plain_assoc kvs name) as H;
  let v := fresh "v" in
  destruct (assoc name kvs) as [v|];
  [ specialize (H v Hp eq_refl); cbn in H;
    try (destruct v; try discriminate H)
  | clear H ].

Lemma succeeds_map_plain (j : json -> SchemaContext -> nat -> M string)
    context depth xs :
  (forall n c, plain_schema n = true -> succeeds (j n c (depth + 1))) ->
  forallb plain_schema xs = true ->
  succeeds (Array_map (fun x : json => j x context (depth + 1)) xs).
Proof.
  intros Hj Hxs. apply succeeds_Array_map.
  apply forallb_Forall_plain in Hxs.
  eapply Forall_impl; [exact Hxs|]. intros x Hx. apply Hj. exact Hx.
Qed.

Lemma jsonTypeToTsType_body_plain j r node context depth :
  (forall n c, plain_schema n = true -> succeeds (j n c (depth + 1))) ->
  (forall n c, plain_schema n = true -> succeeds (r n c (depth + 1))) ->
  plain_schema node = true ->
  succeeds (jsonTypeToTsType_body fs j r node context depth).
Proof.
  intros Hj Hr Hp. destruct node as [| | | | |kvs]; try discriminate.
  unfold jsonTypeToTsType_body.
  destruct (20 <? depth)%nat; [apply succeeds_ret|].
  cbn [field]. rewrite !bind_lift_Ok.
  field_case kvs Hp "$ref". cbn [truthy_opt].
  field_case kvs Hp "oneOf".
  { cbn [truthy_opt truthy orb nullish map_array].
    apply succeeds_bind; [apply succeeds_map_plain; assumption|].
    intros; apply succeeds_ret. }
  field_case kvs Hp "anyOf".
  { cbn [truthy_opt truthy orb nullish map_array].
    apply succeeds_bind; [apply succeeds_map_plain; assumption|].
    intros; apply succeeds_ret. }
  cbn [truthy_opt orb].
  field_case kvs Hp "allOf".
  { cbn [truthy_opt truthy map_array].
    apply succeeds_bind; [apply succeeds_map_plain; assumption|].
    intros; apply succeeds_ret. }
  cbn [truthy_opt].
  field_case kvs Hp "enum".
  { cbn [truthy_opt truthy map_array].
    apply succeeds_bind; [|intros; apply succeeds_ret].
    apply succeeds_Array_map. apply Forall_forall. intros; apply succeeds_ret. }
  cbn [truthy_opt].
  destruct (assoc "const" kvs) as [[]|]; try apply succeeds_ret.
  assert (Htail : forall type,
             succeeds
               (let* items := lift (Ok (assoc "items" kvs)) in
                if strict_equal type (Some (JStr "array")) && truthy_opt items
                then
                  match items with
                  | Some (JArr slots) =>
                      let* types :=
                        Array_map
                          (fun item => j item context (depth + 1)) slots in
                      ret ("[" ++ join ", " types ++ "]")
                  | _ =>
                      let* itemType :=
                        j (default JNull items) context (depth + 1) in
                      ret ("(" ++ itemType ++ ")[]")
                  end
                else
                  let* properties := lift (Ok (assoc "properties" kvs)) in
                  if strict_equal type (Some (JStr "object"))
                     || truthy_opt properties
                  then r (JObj kvs) context (depth + 1)
                  else ret (switch_type type))).
  { intros type. rewrite !bind_lift_Ok.
    destruct (strict_equal type (Some (JStr "array"))
              && truthy_opt (assoc "items" kvs)) eqn:Eitems.
    - apply andb_prop in Eitems as [_ Eitems].
      field_case kvs Hp "items"; try discriminate Eitems;
        cbn [from_option id];
        (apply succeeds_bind; [|intros; apply succeeds_ret]);
        first [ apply succeeds_map_plain; assumption | apply Hj; assumption ].
    - destruct (strict_equal type (Some (JStr "object"))
                || truthy_opt (assoc "properties" kvs)).
      + apply Hr. exact Hp.
      + apply succeeds_ret. }
  field_case kvs Hp "type".
  - apply Htail.
  - apply succeeds_bind; [|intros; apply succeeds_ret].
    apply succeeds_Array_map. apply forallb_Forall_plain in Hfield.
    eapply Forall_impl; [exact Hfield|]. intros member Hm. apply Hj.
    cbn [entries]. apply plain_assoc_set; assumption.
  - apply Htail.
Qed.

Lemma renderObject_loop_plain j required indent context depth props lines :
  (forall n c, plain_schema n = true -> succeeds (j n c (depth + 1))) ->
  forallb (fun p => plain_schema (snd p)) props = true ->
  succeeds (renderObject_loop j required indent context depth props lines).
Proof.
  intros Hj. revert lines.
  induction props as [|[key value] rest IH]; intros lines Hp; cbn [renderObject_loop].
  - apply succeeds_ret.
  - cbn [forallb snd] in Hp. apply andb_prop in Hp as [Hv Hrest].
    destruct (generateJSDoc_plain value depth Hv) as [doc ->].
    rewrite bind_lift_Ok.
    apply succeeds_bind; [apply Hj; exact Hv|]. intros ty. apply IH. exact Hrest.
Qed.

Lemma renderObject_body_plain j node context depth :
  (forall n c, plain_schema n = true -> succeeds (j n c (S depth + 1))) ->
  plain_schema node = true ->
  succeeds (renderObject_body j node context (S depth)).
Proof.
  intros Hj Hp. destruct node as [| | | | |kvs]; try discriminate.
  unfold renderObject_body. cbn [field]. rewrite !bind_lift_Ok.
  assert (Hset : returns_value
                   (new_Set (default JNull
                               (nullish (assoc "required" kvs) (Some (JArr [])))))).
  { field_case kvs Hp "required"; cbn; apply returns_value_Ok. }
  destruct Hset as [required ->]. rewrite bind_lift_Ok.
  apply succeeds_bind.
  { apply renderObject_loop_plain; [exact Hj|].
    field_case kvs Hp "properties"; cbn; [exact Hfield|reflexivity]. }
  intros lines. rewrite bind_lift_Ok.
  apply succeeds_bind; [|intros; apply succeeds_ret].
  field_case kvs Hp "additionalProperties"; try apply succeeds_ret.
  - destruct b; apply succeeds_ret.
  - cbn [typeof_object].
    apply succeeds_bind; [apply Hj; exact Hfield|]. intros; apply succeeds_ret.
Qed.

Lemma gas_plain g :
  (forall depth node context,
      1 <= g -> 23 <= g + depth -> plain_schema node = true ->
      succeeds (jsonTypeToTsType_gas fs g node context depth))
  /\ (forall depth node context,
      2 <= g -> 23 <= g + S depth -> plain_schema node = true ->
      succeeds (renderObject_gas fs g node context (S depth))).
Proof.
  induction g as [|g [IHj IHr]]; [split; intros; lia|].
  split; intros depth node context Hg Hd Hp.
  - rewrite jsonTypeToTsType_gas_S.
    destruct (Nat.lt_ge_cases 20 depth) as [Hb|Hb].
    + intros st. rewrite jsonTypeToTsType_body_beyond by assumption. eauto.
    + apply jsonTypeToTsType_body_plain; [| |exact Hp]; intros.
      * apply IHj; [lia|lia|assumption].
      * rewrite Nat.add_1_r. apply IHr; [lia|lia|assumption].
    - rewrite renderObject_gas_S.
      apply renderObject_body_plain; [|exact Hp]; intros.
      apply IHj; [lia|lia|assumption].
Qed.

Lemma jsonTypeToTsType_plain node context depth :
  plain_schema node = true -> succeeds (jsonTypeToTsType fs node context depth).
Proof. intros Hp. apply (proj1 (gas_plain _)); [lia|lia|exact Hp]. Qed.


End PlainSchemas.

(** C10. Every call of [jsonTypeToTsType] finishes, and whatever it returns
    is a non-empty text (a raised exception returns nothing).  So the texts
    that [map] collects from the branches of a union are all non-empty: the
    filter that drops empty results removes none of them.  On a schema of
    the declared type that holds no reference nothing is raised: the call
    returns a non-empty text. *)
Theorem jsonTypeToTsType_nonempty :
  forall (fs : string -> option file) (context : SchemaContext) (depth : nat)
         (st : store),
    (forall node,
        exists out st',
          jsonTypeToTsType fs node context depth st = Some (out, st')
          /\ forall s, out = Ok s -> s <> EmptyString)
    /\ (forall options,
          exists out st',
            Array_map (fun option => jsonTypeToTsType fs option context depth)
              options st = Some (out, st')
            /\ forall types,
                out = Ok types ->
                Forall (fun t => t <> EmptyString) types
                /\ List.filter nonempty types = types)
    /\ (forall node,
          plain_schema node = true ->
          exists s st',
            jsonTypeToTsType fs node context depth st = Some (Ok s, st')
            /\ s <> EmptyString).
Proof.
  intros fs context depth st. split; [|split].
  - intros node.
    destruct (jsonTypeToTsType_returns fs node context depth st) as [[out st'] H].
    exists out, st'. split; [exact H|]. intros s ->.
    apply (proj1 (gas_nonempty fs _)) in H. destruct s; [discriminate|congruence].
  - intros options.
    destruct (returns_Array_map
                (fun option => jsonTypeToTsType fs option context depth) options
                (fun x => jsonTypeToTsType_returns fs x context depth) st)
      as [[out st'] H].
    exists out, st'. split; [exact H|]. intros types ->.
    apply (Array_map_Forall _ (fun t => nonempty t = true)) in H.
    + split; [|apply filter_all_nonempty; exact H].
      eapply Forall_impl; [exact H|]. intros t Ht. destruct t; [discriminate|congruence].
    + intros x st1 y st2 Hx. apply (proj1 (gas_nonempty fs _)) in Hx. exact Hx.
  - intros node Hp.
    destruct (jsonTypeToTsType_plain fs node context depth Hp st) as (s & st' & H).
    exists s, st'. split; [exact H|].
    apply (proj1 (gas_nonempty fs _)) in H. destruct s; [discriminate|congruence].
Qed.

Lemma jsonTypeToTsType_nonempty_witness :
  exists s st',
    jsonTypeToTsType no_files scenario_B
      {| schema := scenario_B; path := "components.json" |} 0 empty_store
    = Some (Ok s, st')
    /\ s <> EmptyString.
Proof.
  apply (proj2 (proj2 (jsonTypeToTsType_nonempty no_files
                         {| schema := scenario_B; path := "components.json" |}
                         0 empty_store)) scenario_B).
  reflexivity.
Defined.



(** * Further properties *)

(** ** Pointers compose *)

Lemma getByPointer_pointer_to (root : json) (rest : string) :
  getByPointer root (pointer_to rest)
  = pointer_loop root (List.map unescape (split "/" rest)).
Proof.
  unfold getByPointer, pointer_to.
  replace (startsWith (String "#" (String "/" rest)) "#/") with true.
  - simpl negb. cbv iota. unfold pointer_parts.
    cbn [String.length]. cbn [Nat.sub String.substring].
    rewrite Nat.sub_0_r, substring_all. reflexivity.
  - unfold startsWith. rewrite prefix_cons, prefix_one. reflexivity.
Qed.

Lemma pointer_to_compose (root : json) (p q : string) :
  getByPointer root (pointer_to (p ++ String "/" q))
  = let? v := getByPointer root (pointer_to p) in getByPointer v (pointer_to q).
Proof.
  rewrite !getByPointer_pointer_to, split_app, map_app.
  rewrite pointer_loop_app.
  destruct (pointer_loop root (List.map unescape (split "/" p))) as [v|e];
    cbn [obind]; [|reflexivity].
  rewrite getByPointer_pointer_to. reflexivity.
Qed.

(** X1. Walking the pointer [#/p/q] is walking [#/p] and then, from the
    value reached, walking [#/q]. *)
Theorem getByPointer_compose :
  forall (root : json) (p q : string),
    getByPointer root (pointer_to (p ++ String "/" q))
    = let? v := getByPointer root (pointer_to p) in getByPointer v (pointer_to q).
Proof.
  intros root p q. rewrite !getByPointer_pointer_to, split_app, map_app.
  rewrite pointer_loop_app.
  destruct (pointer_loop root (List.map unescape (split "/" p))) as [v|e];
    cbn [obind]; [|reflexivity].
  rewrite getByPointer_pointer_to. reflexivity.
Qed.

Lemma decode_segment_plain (s : string) :
  forallb (fun c => negb (Ascii.eqb c "/") && negb (Ascii.eqb c "~")
                    && negb (Ascii.eqb c "%"))
    (list_ascii_of_string s) = true ->
  decode_segment s = s.
Proof.
  induction s as [|c s IH]; [reflexivity|]. cbn [list_ascii_of_string forallb].
  intros H. apply andb_prop in H as [Hc Hs].
  apply andb_prop in Hc as [Hc Hpercent]. apply andb_prop in Hc as [_ Htilde].
  apply negb_true_iff in Htilde, Hpercent.
  rewrite Ascii.eqb_sym in Htilde. rewrite Ascii.eqb_sym in Hpercent.
  rewrite decode_other.
  - rewrite (IH Hs). reflexivity.
  - rewrite prefix_cons, Htilde. reflexivity.
  - rewrite prefix_cons, Htilde. reflexivity.
  - rewrite prefix_cons, Hpercent. reflexivity.
Qed.

Lemma plain_key_no_slash (key : string) :
  plain_key key = true ->
  forallb (fun c => negb (Ascii.eqb c "/")) (list_ascii_of_string key) = true.
Proof.
  unfold plain_key. induction (list_ascii_of_string key) as [|c l IH];
    [reflexivity|]. cbn [forallb]. intros H. apply andb_prop in H as [Hc Hl].
  apply andb_prop in Hc as [Hc _]. apply andb_prop in Hc as [Hc _].
  rewrite Hc, (IH Hl). reflexivity.
Qed.

(** X2. In an object, the pointer to a key that the object has and that
    needs no escaping gives the value of that key. *)
Theorem getByPointer_lookup :
  forall (kvs : list (string * json)) (key : string) (value : json),
    plain_key key = true ->
    assoc key kvs = Some value ->
    getByPointer (JObj kvs) (pointer_to key) = Ok value.
Proof.
  intros kvs key value Hk Hv. rewrite getByPointer_pointer_to.
  rewrite (split_plain key (plain_key_no_slash key Hk)). cbn [List.map].
  rewrite unescape_decode, (decode_segment_plain key Hk).
  cbn [pointer_loop truthy typeof_object js_in js_member obind]. rewrite Hv.
  case_bool_decide as Hin; [reflexivity|].
  exfalso. apply Hin. eauto.
Qed.

Lemma getByPointer_lookup_witness :
  getByPointer (JObj [("minecraft:health", JNum 20)]) (pointer_to "minecraft:health")
  = Ok (JNum 20).
Proof.
  apply (getByPointer_lookup [("minecraft:health", JNum 20)] "minecraft:health").
  - reflexivity.
  - reflexivity.
Defined.

(** ** References inside one document *)

Lemma startsWith_pointer_to (rest : string) :
  startsWith (pointer_to rest) "#/" = true.
Proof. unfold startsWith, pointer_to. rewrite prefix_cons, prefix_one. reflexivity. Qed.

Lemma getByPointer_returns (root : json) (pointer : string) :
  exists v, getByPointer root pointer = Ok v.
Proof.
  unfold getByPointer. destruct (negb (startsWith pointer "#/")); [eauto|].
  apply pointer_loop_total.
Qed.

Lemma getByPointer_falsy (v : json) (rest : string) :
  truthy v = false -> getByPointer v (pointer_to rest) = Ok JNull.
Proof.
  intros Hv. rewrite getByPointer_pointer_to.
  destruct (split "/" rest) as [|part parts] eqn:E.
  - exfalso. exact (split_not_nil _ _ E).
  - cbn [List.map pointer_loop]. rewrite Hv. reflexivity.
Qed.

(** X3. A reference [#/p/q] resolves as the reference [#/p] followed by
    the reference [#/q] taken in the context that the first step returns,
    whose schema is the node reached; where the first step finds nothing,
    neither does the whole. *)
Theorem resolveRef_local_compose :
  forall (fs : string -> option file) (p q : string) (context : SchemaContext)
         (st : store),
    resolveRef fs (JStr (pointer_to (p ++ String "/" q))) context st
    = resolveRef_twice fs (pointer_to p) (pointer_to q) context st.
Proof.
  intros fs p q context st. unfold resolveRef_twice, resolveRef.
  rewrite !startsWith_pointer_to. rewrite pointer_to_compose.
  destruct (getByPointer_returns (schema context) (pointer_to p)) as [v Hv].
  rewrite Hv. cbn [obind]. unfold bind, lift, ret.
  destruct (truthy v) eqn:Tv.
  - cbn [schema path]. reflexivity.
  - rewrite (getByPointer_falsy v q Tv). reflexivity.
Qed.

(** X4. A reference that starts with [#] is resolved inside the document
    at hand: nothing is loaded, the store is left as it was, nothing is
    raised, and a target found lies at the path of the referencing
    context. *)
Theorem resolveRef_local_pure :
  forall (fs : string -> option file) (ref : string) (context : SchemaContext)
         (st : store),
    startsWith ref "#" = true ->
    exists target,
      resolveRef fs (JStr ref) context st = Some (Ok target, st)
      /\ forall found, target = Some found -> path found = path context.
Proof.
  intros fs ref context st Hlocal. unfold resolveRef. rewrite Hlocal.
  destruct (startsWith ref "#/").
  - destruct (getByPointer_returns (schema context) ref) as [v Hv]. rewrite Hv.
    eexists. split; [reflexivity|].
    intros found. destruct (truthy v); [|discriminate].
    intros [= <-]. reflexivity.
  - eexists. split; [reflexivity|]. intros found [= <-]. reflexivity.
Qed.

Lemma resolveRef_local_pure_witness :
  exists target,
    resolveRef no_files (JStr "#/definitions/name") definitions_context empty_store
    = Some (Ok target, empty_store)
    /\ forall found, target = Some found -> path found = path definitions_context.
Proof.
  apply (resolveRef_local_pure no_files "#/definitions/name" definitions_context
           empty_store).
  reflexivity.
Defined.

(** ** Dispatch *)

(** X5. A node that bears a reference is synthesized from the reference
    alone: whatever other fields stand beside [$ref] are ignored. *)
Theorem ref_siblings_ignored :
  forall (fs : string -> option file) (node ref : json) (context : SchemaContext)
         (depth : nat) (st : store),
    field node "$ref" = Ok (Some ref) ->
    truthy ref = true ->
    jsonTypeToTsType fs node context depth st
    = jsonTypeToTsType fs (JObj [("$ref", ref)]) context depth st.
Proof.
  intros fs node ref context depth st Hf Ht.
  destruct (le_gt_dec depth 20) as [Hd|Hd].
  - rewrite (jsonTypeToTsType_ref fs node context depth ref st Hd Hf Ht).
    rewrite (jsonTypeToTsType_ref fs (JObj [("$ref", ref)]) context depth ref st
               Hd eq_refl Ht).
    reflexivity.
  - rewrite !jsonTypeToTsType_beyond by lia. reflexivity.
Qed.

Lemma ref_siblings_ignored_witness :
  jsonTypeToTsType no_files
    (JObj [("type", JStr "string"); ("$ref", JStr "#/definitions/name")])
    definitions_context 0 empty_store
  = jsonTypeToTsType no_files (JObj [("$ref", JStr "#/definitions/name")])
      definitions_context 0 empty_store.
Proof.
  apply (ref_siblings_ignored no_files
           (JObj [("type", JStr "string"); ("$ref", JStr "#/definitions/name")])
           (JStr "#/definitions/name") definitions_context 0 empty_store).
  - reflexivity.
  - reflexivity.
Defined.

(** X6. Where a node without reference has an array under [oneOf], the
    node is synthesized from that array alone: [anyOf], [allOf], [enum],
    [const], [type] and the object fields beside it are ignored. *)
Theorem oneOf_first :
  forall (fs : string -> option file) (node : json) (options : list json)
         (context : SchemaContext) (depth : nat) (st : store),
    truthy_opt (field_value node "$ref") = false ->
    field node "oneOf" = Ok (Some (JArr options)) ->
    jsonTypeToTsType fs node context depth st
    = jsonTypeToTsType fs (JObj [("oneOf", JArr options)]) context depth st.
Proof.
  intros fs node options context depth st Href Hone.
  rewrite !jsonTypeToTsType_unfold. unfold jsonTypeToTsType_body.
  destruct (20 <? depth)%nat; [reflexivity|].
  destruct node as [| | | | |kvs]; try discriminate Hone.
  unfold field_value in Href. cbn [field] in Href, Hone |- *.
  injection Hone as Hone. rewrite Hone.
  rewrite !bind_lift_Ok. rewrite Href. reflexivity.
Qed.

Lemma oneOf_first_witness :
  jsonTypeToTsType no_files
    (JObj [("type", JStr "string");
           ("oneOf", JArr [JObj [("type", JStr "number")]])])
    definitions_context 0 empty_store
  = jsonTypeToTsType no_files
      (JObj [("oneOf", JArr [JObj [("type", JStr "number")]])])
      definitions_context 0 empty_store.
Proof.
  apply (oneOf_first no_files
           (JObj [("type", JStr "string");
                  ("oneOf", JArr [JObj [("type", JStr "number")]])])
           [JObj [("type", JStr "number")]] definitions_context 0 empty_store).
  - reflexivity.
  - reflexivity.
Defined.

(** ** The closing switch *)

Lemma contains_char_app (c : ascii) (a b : string) :
  contains_char c (a ++ b) = contains_char c a || contains_char c b.
Proof.
  unfold contains_char. induction a as [|x a IH]; [reflexivity|].
  rewrite append_cons. cbn [list_ascii_of_string existsb]. rewrite IH.
  rewrite orb_assoc. reflexivity.
Qed.

Lemma join_two_contains (c : ascii) (sep : string) (a b : string)
    (rest : list string) :
  contains_char c sep = true ->
  contains_char c (join sep (a :: b :: rest)) = true.
Proof.
  intros Hsep. unfold join. cbn [String.concat].
  rewrite !contains_char_app, Hsep. rewrite orb_true_r. reflexivity.
Qed.

Lemma first_char_app (a b : string) :
  nonempty a = true -> first_char (a ++ b) = first_char a.
Proof. destruct a; [discriminate|]. intros _. rewrite append_cons. reflexivity. Qed.

Lemma first_char_join (sep x : string) (xs : list string) :
  nonempty x = true -> first_char (join sep (x :: xs)) = first_char x.
Proof.
  intros H. unfold join. destruct xs; cbn [String.concat]; [reflexivity|].
  apply first_char_app. exact H.
Qed.

Lemma not_record_first (s : string) :
  first_char s <> Some "R"%char -> s <> record_text.
Proof. intros H ->. apply H. reflexivity. Qed.

Lemma not_record_contains (c : ascii) (s : string) :
  contains_char c s = true -> contains_char c record_text = false ->
  s <> record_text.
Proof. intros H1 H2 ->. rewrite H1 in H2. discriminate. Qed.

Lemma first_char_show_Z (n : Z) : first_char (show_Z n) <> Some "R"%char.
Proof.
  unfold show_Z. destruct (Z.to_int n) as [d|d]; simpl; [|discriminate].
  destruct d; discriminate.
Qed.

Lemma not_record_stringify (v : json) : stringify v <> record_text.
Proof.
  apply not_record_first. destruct v as [|[]| | | |]; cbn [stringify];
    try discriminate.
  apply first_char_show_Z.
Qed.

Lemma not_record_switch_type (type : option json) :
  strict_equal type (Some (JStr "object")) = false ->
  switch_type type <> record_text.
Proof.
  intros H. unfold switch_type. rewrite H.
  repeat match goal with |- context [if ?b then _ else _] => destruct b end;
    discriminate.
Qed.

(** What [wrapUnion] returns: "unknown", one of the texts it was given, or
    a text with a bar in it. *)
Lemma wrapUnion_cases (types : list string) :
  (wrapUnion types = "unknown" /\ List.filter nonempty types = [])
  \/ (wrapUnion types ∈ types
      /\ forall t, t ∈ types -> t = EmptyString \/ t = wrapUnion types)
  \/ contains_char "|" (wrapUnion types) = true.
Proof.
  unfold wrapUnion.
  pose proof (Set_of_elements (List.filter nonempty types)) as H.
  destruct (Set_of (List.filter nonempty types)) as [|t [|t' rest]];
    cbn [length Nat.eqb hd].
  - left. split; [reflexivity|].
    destruct (List.filter nonempty types) as [|x l]; [reflexivity|].
    exfalso. assert (Hx : x ∈ @nil string) by (apply H; left). inversion Hx.
  - right. left. split.
    + assert (Ht : t ∈ List.filter nonempty types) by (apply H; left).
      apply filter_nonempty_elem in Ht as [Ht _]. exact Ht.
    + intros u Hu. destruct u as [|c u]; [left; reflexivity|]. right.
      assert (Hin : String c u ∈ [t]).
      { apply H. apply filter_nonempty_elem. split; [exact Hu|discriminate]. }
      apply list_elem_of_singleton in Hin. exact Hin.
  - right. right. apply join_two_contains. reflexivity.
Qed.

Lemma not_record_wrapUnion (types : list string) :
  Forall (fun t => t <> record_text) types -> wrapUnion types <> record_text.
Proof.
  intros Hall. destruct (wrapUnion_cases types) as [[-> _]|[[Hin _]|Hbar]].
  - discriminate.
  - rewrite Forall_forall in Hall. apply Hall. exact Hin.
  - eapply not_record_contains; [exact Hbar|reflexivity].
Qed.

Lemma Forall_filter_keeps {A : Type} (P : A -> Prop) (f : A -> bool) (xs : list A) :
  Forall P xs -> Forall P (List.filter f xs).
Proof.
  induction 1 as [|x xs Hx _ IH]; cbn [List.filter]; [constructor|].
  destruct (f x); [constructor; assumption|assumption].
Qed.

Lemma not_record_intersection (types : list string) :
  Forall (fun t => t <> record_text) types ->
  (if (0 <? length types)%nat then join " & " types else "unknown") <> record_text.
Proof.
  intros Hall. destruct Hall as [|t [|t' rest] Ht Hrest]; cbn [length Nat.ltb Nat.leb].
  - discriminate.
  - exact Ht.
  - eapply (not_record_contains "&"); [|reflexivity].
    apply join_two_contains. reflexivity.
Qed.

Section ClosingSwitch.

Variable fs : string -> option file.

Lemma renderObject_body_brace j node context depth st s st' :
  renderObject_body j node context depth st = Some (Ok s, st') ->
  first_char s = Some "{"%char.
Proof.
  unfold renderObject_body. intros H.
  apply bind_Ok in H as (properties & st1 & _ & H).
  apply bind_Ok in H as (required_field & st2 & _ & H).
  apply bind_Ok in H as (required & st3 & _ & H).
  apply bind_Ok in H as (lines & st4 & Hloop & H).
  apply bind_Ok in H as (ap & st5 & _ & H).
  apply bind_Ok in H as (lines' & st6 & Hap & H).
  apply renderObject_loop_head in Hloop as [more ->].
  assert (Hhead : exists more', lines' = ("{" :: more')%list).
  { invert_M; unfold push; simpl; eauto. }
  destruct Hhead as [more' ->].
  destruct depth; [discriminate|]. injection H as <- _.
  unfold push. simpl app.
  exact (first_char_join newline "{" _ eq_refl).
Qed.

Lemma jsonTypeToTsType_body_not_record j r node context depth st s st' :
  (forall n c st1 s1 st2,
      j n c (depth + 1) st1 = Some (Ok s1, st2) -> s1 <> record_text) ->
  (forall n c st1 s1 st2,
      r n c (depth + 1) st1 = Some (Ok s1, st2) -> s1 <> record_text) ->
  jsonTypeToTsType_body fs j r node context depth st = Some (Ok s, st') ->
  s <> record_text.
Proof.
  intros Hj Hr. unfold jsonTypeToTsType_body, map_array. intros H.
  invert_M;
    try discriminate;
    try apply not_record_stringify;
    try (match goal with
         | |- (if ?b then _ else _) <> _ => destruct b; discriminate
         end);
    try (eapply Hj; eassumption);
    try (eapply Hr; eassumption);
    try (apply not_record_first; apply first_char_show_Z);
    try (apply not_record_switch_type;
         match goal with
         | E : (strict_equal _ _ || _) = false |- _ =>
             apply orb_false_elim in E as [E _]; exact E
         end);
    try (apply not_record_wrapUnion; try apply Forall_filter_keeps;
         match goal with
         | Ha : Array_map _ _ _ = Some (Ok _, _) |- _ =>
             apply (Array_map_Forall _ (fun t => t <> record_text)) in Ha;
             [exact Ha|]
         end;
         intros; invert_M;
         first [ eapply Hj; eassumption
               | match goal with
                 | |- match ?v with _ => _ end <> _ =>
                     destruct v; try discriminate; apply not_record_stringify
                 end ]);
    try (apply not_record_intersection;
         match goal with
         | Ha : Array_map _ _ _ = Some (Ok _, _) |- _ =>
             apply (Array_map_Forall _ (fun t => t <> record_text)) in Ha;
             [exact Ha|intros; eapply Hj; eassumption]
         end).
Qed.

End ClosingSwitch.

Lemma gas_not_record (fs : string -> option file) g :
  (forall node context depth st s st',
      jsonTypeToTsType_gas fs g node context depth st = Some (Ok s, st') ->
      s <> record_text)
  /\ (forall node context depth st s st',
      renderObject_gas fs g node context depth st = Some (Ok s, st') ->
      s <> record_text).
Proof.
  induction g as [|g [IHj IHr]]; [split; intros; discriminate|].
  split; intros node context depth st s st' H.
  - rewrite jsonTypeToTsType_gas_S in H.
    eapply jsonTypeToTsType_body_not_record; [| |exact H]; intros; eauto.
  - rewrite renderObject_gas_S in H.
    apply not_record_first. rewrite (renderObject_body_brace _ _ _ _ _ _ _ H).
    discriminate.
Qed.

(** X7. The text [Record<string, unknown>] of the closing switch is never
    the result of [jsonTypeToTsType]: a node of type [object] is rendered
    as a record of braces before the switch is reached.  A node
    [{type: 'object'}] gives the empty record. *)
Theorem record_case_unreachable :
  forall (fs : string -> option file) (node : json) (context : SchemaContext)
         (depth : nat) (st st' : store),
    jsonTypeToTsType fs node context depth st <> Some (Ok record_text, st')
    /\ jsonTypeToTsType fs (JObj [("type", JStr "object")]) context 0 st
       = Some (Ok ("{" ++ newline ++ "}"), st).
Proof.
  intros fs node context depth st st'. split; [|reflexivity].
  intros H. unfold jsonTypeToTsType in H.
  apply (gas_not_record fs) in H. apply H. reflexivity.
Qed.

(** X8. A union is "unknown" only where every text it is made of is empty
    or "unknown": one "unknown" branch beside another type does not absorb
    the union. *)
Theorem wrapUnion_unknown :
  forall types : list string,
    wrapUnion types = "unknown"
    <-> forall t, t ∈ types -> t = EmptyString \/ t = "unknown".
Proof.
  intros types. split.
  - intros Hw. destruct (wrapUnion_cases types) as [[_ Hnil]|[[_ Hall]|Hbar]].
    + intros t Ht. destruct t as [|c t]; [left; reflexivity|]. exfalso.
      assert (Hin : String c t ∈ List.filter nonempty types).
      { apply filter_nonempty_elem. split; [exact Ht|discriminate]. }
      rewrite Hnil in Hin. inversion Hin.
    + rewrite Hw in Hall. exact Hall.
    + rewrite Hw in Hbar. discriminate.
  - intros Hall. unfold wrapUnion.
    pose proof (Set_of_elements (List.filter nonempty types)) as H.
    assert (Hunique : NoDup (Set_of (List.filter nonempty types))).
    { unfold Set_of.
      destruct (fold_Set_add (List.filter nonempty types) [] NoDup_nil_2)
        as (fresh & -> & Hnd & _). exact Hnd. }
    assert (Hu : forall t, t ∈ Set_of (List.filter nonempty types) -> t = "unknown").
    { intros t Ht. apply H in Ht. apply filter_nonempty_elem in Ht as [Ht Hne].
      destruct (Hall t Ht); [contradiction|assumption]. }
    destruct (Set_of (List.filter nonempty types)) as [|t [|t' rest]];
      cbn [length Nat.eqb hd].
    + reflexivity.
    + apply Hu. left.
    + exfalso. assert (t = "unknown") as -> by (apply Hu; left).
      assert (t' = "unknown") as -> by (apply Hu; right; left).
      apply NoDup_cons in Hunique as [Hnot _]. apply Hnot. left.
Qed.

(** ** What a run does to the store, and what it does not raise *)

Lemma evolves_refl fs st : evolves fs st st.
Proof.
  split; [auto|]. split; [auto|]. exists []. rewrite app_nil_r. reflexivity.
Qed.

Lemma evolves_trans fs st1 st2 st3 :
  evolves fs st1 st2 -> evolves fs st2 st3 -> evolves fs st1 st3.
Proof.
  intros (K1 & N1 & m1 & R1) (K2 & N2 & m2 & R2).
  split; [auto|]. split.
  - intros p j H. destruct (N2 p j H) as [H'|H']; [apply N1; exact H'|right; exact H'].
  - exists (m1 ++ m2)%list. rewrite R2, R1, app_assoc. reflexivity.
Qed.

Lemma no_RangeError_Ok {A : Type} (a : A) : no_RangeError (Ok a).
Proof. discriminate. Qed.

Lemma no_RangeError_obind {A B : Type} (o : outcome A) (k : A -> outcome B) :
  no_RangeError o -> (forall a, no_RangeError (k a)) -> no_RangeError (obind o k).
Proof.
  intros Ho Hk. destruct o as [a|e]; [apply Hk|].
  cbn [obind]. intros [= ->]. apply Ho. reflexivity.
Qed.

Ltac no_RangeError_step :=
  first
    [ discriminate
    | apply no_RangeError_obind; [|intros]
    | match goal with
      | |- no_RangeError (if ?b then _ else _) => destruct b
      | |- no_RangeError (match ?x with _ => _ end) => destruct x
      end ].

Lemma no_RangeError_field (v : json) (name : string) : no_RangeError (field v name).
Proof. destruct v; discriminate. Qed.

Lemma no_RangeError_js_member (v : json) (part : string) :
  no_RangeError (js_member v part).
Proof. unfold js_member. repeat no_RangeError_step. Qed.

Lemma no_RangeError_getByPointer (root : json) (pointer : string) :
  no_RangeError (getByPointer root pointer).
Proof. destruct (getByPointer_returns root pointer) as [v ->]. discriminate. Qed.

Lemma no_RangeError_new_Set (v : json) : no_RangeError (new_Set v).
Proof. destruct v; discriminate. Qed.

Lemma no_RangeError_ToString : forall v : json, no_RangeError (ToString v).
Proof.
  fix IH 1. intros v. destruct v as [|[]| | |xs|kvs]; cbn [ToString];
    try discriminate.
  - apply no_RangeError_obind; [|intros; discriminate].
    revert xs. fix IHxs 1. intros xs. destruct xs as [|x xs]; [discriminate|].
    apply no_RangeError_obind.
    + pose proof (IH x) as Hx. destruct x; first [discriminate|exact Hx].
    + intros s. apply no_RangeError_obind; [apply IHxs|intros; discriminate].
  - destruct (bool_decide (is_Some (assoc "toString" kvs))); discriminate.
Qed.

Lemma no_RangeError_nullish_lazy (a : option json) (b : outcome (option json)) :
  no_RangeError b -> no_RangeError (nullish_lazy a b).
Proof. intros Hb. destruct a as [[]|]; first [exact Hb|discriminate]. Qed.

Lemma no_RangeError_generateJSDoc (node : json) (depth : nat) :
  no_RangeError (generateJSDoc node depth).
Proof.
  unfold generateJSDoc.
  repeat first
    [ apply no_RangeError_field
    | apply no_RangeError_js_member
    | apply no_RangeError_ToString
    | no_RangeError_step ].
Qed.

Create HintDb no_RangeError.

#[local] Hint Resolve no_RangeError_field no_RangeError_js_member
  no_RangeError_getByPointer no_RangeError_new_Set no_RangeError_ToString
  no_RangeError_nullish_lazy no_RangeError_generateJSDoc : no_RangeError.

Lemma orderly_ret {A : Type} fs (a : A) : orderly fs (ret a).
Proof.
  intros st out st' H. injection H as <- <-. split; [apply evolves_refl|discriminate].
Qed.

Lemma orderly_throw {A : Type} fs (e : error) :
  e <> RangeError -> orderly fs (@throw A e).
Proof.
  intros He st out st' H. injection H as <- <-. split; [apply evolves_refl|].
  intros [= E]. contradiction.
Qed.

Lemma orderly_lift {A : Type} fs (o : outcome A) :
  no_RangeError o -> orderly fs (lift o).
Proof.
  intros Ho st out st' H. injection H as <- <-. split; [apply evolves_refl|exact Ho].
Qed.

Lemma orderly_bind {A B : Type} fs (m : M A) (k : A -> M B) :
  orderly fs m -> (forall a, orderly fs (k a)) -> orderly fs (bind m k).
Proof.
  intros Hm Hk st out st' H. unfold bind in H.
  destruct (m st) as [[[a|e] st1]|] eqn:E; [| |discriminate].
  - destruct (Hm _ _ _ E) as [E1 _]. destruct (Hk a _ _ _ H) as [E2 Hout].
    split; [eapply evolves_trans; eassumption|exact Hout].
  - injection H as <- <-. destruct (Hm _ _ _ E) as [E1 Hout].
    split; [exact E1|]. intros [= ->]. apply Hout. reflexivity.
Qed.

Lemma orderly_Array_map {A B : Type} fs (f : A -> M B) (xs : list A) :
  (forall x, orderly fs (f x)) -> orderly fs (Array_map f xs).
Proof.
  intros Hf. induction xs as [|x xs IH]; cbn [Array_map].
  - apply orderly_ret.
  - apply orderly_bind; [apply Hf|]. intros y.
    apply orderly_bind; [exact IH|]. intros ys. apply orderly_ret.
Qed.

Lemma orderly_loadSchemaContext fs p : orderly fs (loadSchemaContext fs p).
Proof.
  intros st out st' H. unfold loadSchemaContext in H.
  destruct (schemaCache st !! p) as [j|] eqn:Ec.
  - injection H as <- <-. split; [apply evolves_refl|discriminate].
  - destruct (fs p) as [[|j]|] eqn:Ef; injection H as <- <-.
    + split; [|discriminate]. split; [auto|]. split; [auto|]. eexists. reflexivity.
    + split; [|discriminate]. split; [|split].
      * intros q d Hq. cbn [schemaCache]. rewrite lookup_insert_ne; [exact Hq|].
        intros ->. congruence.
      * intros q d Hq. cbn [schemaCache] in Hq.
        destruct (decide (p = q)) as [->|Hne].
        -- rewrite lookup_insert_eq in Hq. injection Hq as <-. right. exact Ef.
        -- rewrite lookup_insert_ne in Hq by exact Hne. left. exact Hq.
      * eexists. reflexivity.
    + split; [|discriminate]. split; [auto|]. split; [auto|]. eexists. reflexivity.
Qed.

Ltac orderly_step :=
  first
    [ apply orderly_ret
    | apply orderly_throw; discriminate
    | apply orderly_lift; solve [auto with no_RangeError]
    | apply orderly_loadSchemaContext
    | apply orderly_bind; [|intros]
    | apply orderly_Array_map; intros
    | match goal with
      | |- orderly _ (if ?b then _ else _) => destruct b
      | |- orderly _ (match ?x with _ => _ end) => destruct x
      | |- orderly _ (let _ := _ in _) => cbv zeta
      end ].

Lemma orderly_resolveRef fs ref context : orderly fs (resolveRef fs ref context).
Proof. unfold resolveRef. repeat orderly_step. Qed.

Section Orderly.

Variable fs : string -> option file.

Lemma jsonTypeToTsType_body_orderly j r node context depth :
  (forall n c, orderly fs (j n c (depth + 1))) ->
  (forall n c, orderly fs (r n c (depth + 1))) ->
  orderly fs (jsonTypeToTsType_body fs j r node context depth).
Proof.
  intros Hj Hr. unfold jsonTypeToTsType_body, map_array.
  repeat first [ apply Hj | apply Hr | apply orderly_resolveRef | orderly_step ].
Qed.

Lemma renderObject_loop_orderly j required indent context depth props lines :
  (forall n c, orderly fs (j n c (depth + 1))) ->
  orderly fs (renderObject_loop j required indent context depth props lines).
Proof.
  intros Hj. revert lines.
  induction props as [|[key value] rest IH]; intros lines; simpl.
  - apply orderly_ret.
  - apply orderly_bind; [apply orderly_lift; auto with no_RangeError|]. intros doc.
    apply orderly_bind; [apply Hj|]. intros ty. apply IH.
Qed.

Lemma renderObject_body_orderly j node context depth :
  (forall n c, orderly fs (j n c (S depth + 1))) ->
  orderly fs (renderObject_body j node context (S depth)).
Proof.
  intros Hj. unfold renderObject_body. cbv iota.
  repeat first
    [ apply Hj | apply renderObject_loop_orderly; assumption | orderly_step ].
Qed.

Lemma gas_orderly g :
  (forall node context depth, orderly fs (jsonTypeToTsType_gas fs g node context depth))
  /\ (forall node context depth,
         orderly fs (renderObject_gas fs g node context (S depth))).
Proof.
  induction g as [|g [IHj IHr]];
    [split; intros node context depth st out st' H; discriminate|].
  split; intros node context depth.
  - rewrite jsonTypeToTsType_gas_S. apply jsonTypeToTsType_body_orderly.
    + intros n c. apply IHj.
    + intros n c. rewrite Nat.add_1_r. apply IHr.
  - rewrite renderObject_gas_S. apply renderObject_body_orderly.
    intros n c. apply IHj.
Qed.

Lemma resolveSchema_gas_orderly g :
  forall node context seen, orderly fs (resolveSchema_gas fs g node context seen).
Proof.
  induction g as [|g IH]; intros node context seen;
    [intros st out st' H; discriminate|].
  cbn [resolveSchema_gas].
  repeat first [ apply IH | apply orderly_resolveRef | orderly_step ].
Qed.

Lemma main_gas_orderly gas : orderly fs (main_gas fs gas).
Proof.
  unfold main_gas, extractComponents_gas, extractComponent.
  repeat first
    [ apply resolveSchema_gas_orderly
    | apply (proj1 (gas_orderly _))
    | orderly_step ].
Qed.

End Orderly.

(** ** Nodes without references *)

Lemma same_ret {A : Type} (a : A) : same (ret a) (ret a).
Proof. exists (Ok a). split; reflexivity. Qed.

Lemma same_throw {A : Type} (e : error) : same (@throw A e) (throw e).
Proof. exists (Throw e). split; reflexivity. Qed.

Lemma same_bind {A B : Type} (m1 m2 : M A) (k1 k2 : A -> M B) :
  same m1 m2 -> (forall a, same (k1 a) (k2 a)) -> same (bind m1 k1) (bind m2 k2).
Proof.
  intros ([a|e] & H1 & H2) Hk.
  - destruct (Hk a) as (out & K1 & K2). exists out.
    split; intros st; unfold bind; [rewrite H1|rewrite H2]; auto.
  - exists (Throw e). split; intros st; unfold bind; [rewrite H1|rewrite H2];
      reflexivity.
Qed.

Lemma same_bind_lift {A B : Type} (o : outcome A) (k1 k2 : A -> M B) :
  (forall a, o = Ok a -> same (k1 a) (k2 a)) ->
  same (bind (lift o) k1) (bind (lift o) k2).
Proof.
  intros Hk. destruct o as [a|e].
  - rewrite !bind_lift_Ok. apply Hk. reflexivity.
  - exists (Throw e). split; reflexivity.
Qed.

Lemma same_Array_map {A B : Type} (f1 f2 : A -> M B) (xs : list A) :
  Forall (fun x => same (f1 x) (f2 x)) xs ->
  same (Array_map f1 xs) (Array_map f2 xs).
Proof.
  induction 1 as [|x xs Hx _ IH]; cbn [Array_map].
  - apply same_ret.
  - apply same_bind; [exact Hx|]. intros y.
    apply same_bind; [exact IH|]. intros ys. apply same_ret.
Qed.

Lemma ref_free_assoc (kvs : list (string * json)) (name : string) (v : json) :
  forallb (fun kv => ref_free (snd kv)) kvs = true ->
  assoc name kvs = Some v -> ref_free v = true.
Proof.
  induction kvs as [|[k w] kvs IH]; [discriminate|].
  cbn [forallb assoc snd]. intros H Ha. apply andb_prop in H as [Hw Hrest].
  destruct (String.eqb k name).
  - injection Ha as <-. exact Hw.
  - exact (IH Hrest Ha).
Qed.

Lemma ref_free_field (node : json) (name : string) (v : option json) :
  ref_free node = true -> field node name = Ok v -> ref_free_opt v = true.
Proof.
  intros Hfree Hf. destruct node as [| | | | |kvs]; cbn [field] in Hf;
    try (injection Hf as <-; reflexivity); try discriminate.
  injection Hf as <-. destruct (assoc name kvs) as [w|] eqn:E; [|reflexivity].
  cbn [ref_free] in Hfree. apply andb_prop in Hfree as [_ Hall].
  exact (ref_free_assoc kvs name w Hall E).
Qed.

Lemma ref_free_no_ref (node : json) (ref : option json) :
  ref_free node = true -> field node "$ref" = Ok ref -> truthy_opt ref = false.
Proof.
  intros Hfree Hf. destruct node as [| | | | |kvs]; cbn [field] in Hf;
    try (injection Hf as <-; reflexivity); try discriminate.
  injection Hf as <-. cbn [ref_free] in Hfree.
  apply andb_prop in Hfree as [Hno _]. apply negb_true_iff in Hno. exact Hno.
Qed.

Lemma ref_free_nullish (a b : option json) :
  ref_free_opt a = true -> ref_free_opt b = true ->
  ref_free_opt (nullish a b) = true.
Proof. intros Ha Hb. destruct a as [[]|]; assumption. Qed.

Lemma assoc_ref_assoc_set (kvs : list (string * json)) (member : json) :
  assoc "$ref" (assoc_set "type" member kvs) = assoc "$ref" kvs.
Proof.
  induction kvs as [|[k w] kvs IH]; [reflexivity|]. cbn [assoc_set assoc].
  destruct (String.eqb k "type") eqn:E.
  - apply String.eqb_eq in E. subst k. reflexivity.
  - cbn [assoc]. rewrite IH. reflexivity.
Qed.

Lemma ref_free_assoc_set (kvs : list (string * json)) (member : json) :
  ref_free (JObj kvs) = true -> ref_free member = true ->
  ref_free (JObj (assoc_set "type" member kvs)) = true.
Proof.
  cbn [ref_free]. intros H Hm. apply andb_prop in H as [Hno Hall].
  apply andb_true_intro. split.
  - rewrite assoc_ref_assoc_set. exact Hno.
  - clear Hno. induction kvs as [|[k w] kvs IH]; cbn [assoc_set forallb snd].
    + rewrite Hm. reflexivity.
    + cbn [forallb snd] in Hall. apply andb_prop in Hall as [Hw Hrest].
      destruct (String.eqb k "type"); cbn [forallb snd].
      * rewrite Hm, Hrest. reflexivity.
      * rewrite Hw, (IH Hrest). reflexivity.
Qed.

Lemma Forall_imap_snd {A : Type} (P : A -> Prop) (key : nat -> string) (xs : list A) :
  Forall P xs -> Forall (fun kv => P (snd kv)) (imap (fun i x => (key i, x)) xs).
Proof.
  intros H. revert key. induction H as [|x xs Hx _ IH]; intros key; cbn [imap].
  - constructor.
  - constructor; [exact Hx|]. apply (IH (key ∘ S)).
Qed.

Lemma ref_free_chars (s : string) : Forall (fun c => ref_free (JStr c) = true) (chars s).
Proof. induction s; cbn [chars]; constructor; auto. Qed.

Lemma ref_free_entries (v : json) :
  ref_free v = true -> Forall (fun kv => ref_free (snd kv) = true) (entries v).
Proof.
  intros H. destruct v as [| | |s|xs|kvs]; cbn [entries]; try constructor.
  - assert (Hc := ref_free_chars s).
    revert Hc. generalize (chars s). intros cs Hc.
    assert (G : forall key : nat -> string,
               Forall (fun kv : string * json => ref_free (snd kv) = true)
                 (imap (fun i c => (key i, JStr c)) cs)).
    { induction Hc as [|c cs Hc _ IH]; intros key; cbn [imap]; constructor.
      - reflexivity.
      - apply (IH (key ∘ S)). }
    apply G.
  - apply (Forall_imap_snd (fun x => ref_free x = true)).
    cbn [ref_free] in H. apply forallb_Forall_plain. exact H.
  - cbn [ref_free] in H. apply andb_prop in H as [_ H].
    apply forallb_Forall_plain in H. exact H.
Qed.

Lemma same_map_array (v : option json) (f1 f2 : json -> M string) :
  ref_free_opt v = true ->
  (forall n, ref_free n = true -> same (f1 n) (f2 n)) ->
  same (map_array v f1) (map_array v f2).
Proof.
  intros Hv Hf. unfold map_array. destruct v as [[| | | |xs|]|]; try apply same_throw.
  apply same_Array_map. cbn [ref_free_opt ref_free] in Hv.
  apply forallb_Forall_plain in Hv. eapply Forall_impl; [exact Hv|]. exact Hf.
Qed.

Section RefFree.

Variables fs1 fs2 : string -> option file.

Lemma jsonTypeToTsType_body_same j1 j2 r1 r2 node c1 c2 depth :
  (forall n, ref_free n = true -> same (j1 n c1 (depth + 1)) (j2 n c2 (depth + 1))) ->
  (forall n, ref_free n = true -> same (r1 n c1 (depth + 1)) (r2 n c2 (depth + 1))) ->
  ref_free node = true ->
  same (jsonTypeToTsType_body fs1 j1 r1 node c1 depth)
       (jsonTypeToTsType_body fs2 j2 r2 node c2 depth).
Proof.
  intros Hj Hr Hfree. unfold jsonTypeToTsType_body.
  destruct (20 <? depth)%nat; [apply same_ret|].
  apply same_bind_lift. intros ref Eref.
  rewrite (ref_free_no_ref node ref Hfree Eref).
  apply same_bind_lift. intros oneOf EoneOf.
  apply same_bind_lift. intros anyOf EanyOf.
  pose proof (ref_free_field _ _ _ Hfree EoneOf) as FoneOf.
  pose proof (ref_free_field _ _ _ Hfree EanyOf) as FanyOf.
  destruct (truthy_opt oneOf || truthy_opt anyOf).
  { apply same_bind; [|intros; apply same_ret].
    apply same_map_array; [|exact Hj].
    apply ref_free_nullish; [exact FoneOf|].
    apply ref_free_nullish; [exact FanyOf|reflexivity]. }
  apply same_bind_lift. intros allOf EallOf.
  destruct (truthy_opt allOf).
  { apply same_bind; [|intros; apply same_ret].
    apply same_map_array; [|exact Hj]. exact (ref_free_field _ _ _ Hfree EallOf). }
  apply same_bind_lift. intros enum Eenum.
  destruct (truthy_opt enum).
  { apply same_bind; [|intros; apply same_ret].
    apply same_map_array; [exact (ref_free_field _ _ _ Hfree Eenum)|].
    intros; apply same_ret. }
  apply same_bind_lift. intros const Econst.
  destruct const as [[]|]; try apply same_ret.
  apply same_bind_lift. intros type Etype.
  pose proof (ref_free_field _ _ _ Hfree Etype) as Ftype.
  assert (Htail : forall type',
             same
               (let* items := lift (field node "items") in
                if strict_equal type' (Some (JStr "array")) && truthy_opt items
                then
                  match items with
                  | Some (JArr slots) =>
                      let* types :=
                        Array_map (fun item => j1 item c1 (depth + 1)) slots in
                      ret ("[" ++ join ", " types ++ "]")
                  | _ =>
                      let* itemType := j1 (default JNull items) c1 (depth + 1) in
                      ret ("(" ++ itemType ++ ")[]")
                  end
                else
                  let* properties := lift (field node "properties") in
                  if strict_equal type' (Some (JStr "object"))
                     || truthy_opt properties
                  then r1 node c1 (depth + 1)
                  else ret (switch_type type'))
               (let* items := lift (field node "items") in
                if strict_equal type' (Some (JStr "array")) && truthy_opt items
                then
                  match items with
                  | Some (JArr slots) =>
                      let* types :=
                        Array_map (fun item => j2 item c2 (depth + 1)) slots in
                      ret ("[" ++ join ", " types ++ "]")
                  | _ =>
                      let* itemType := j2 (default JNull items) c2 (depth + 1) in
                      ret ("(" ++ itemType ++ ")[]")
                  end
                else
                  let* properties := lift (field node "properties") in
                  if strict_equal type' (Some (JStr "object"))
                     || truthy_opt properties
                  then r2 node c2 (depth + 1)
                  else ret (switch_type type'))).
  { intros type'. apply same_bind_lift. intros items Eitems.
    pose proof (ref_free_field _ _ _ Hfree Eitems) as Fitems.
    destruct (strict_equal type' (Some (JStr "array")) && truthy_opt items).
    - destruct items as [[| | | |slots|]|];
        try (apply same_bind; [|intros; apply same_ret];
             apply Hj; first [exact Fitems|reflexivity]).
      apply same_bind; [|intros; apply same_ret].
      apply same_Array_map. cbn [ref_free_opt ref_free] in Fitems.
      apply forallb_Forall_plain in Fitems.
      eapply Forall_impl; [exact Fitems|]. exact Hj.
    - apply same_bind_lift. intros properties Eproperties.
      destruct (strict_equal type' (Some (JStr "object")) || truthy_opt properties).
      + apply Hr. exact Hfree.
      + apply same_ret. }
  destruct type as [[| | | |members|]|]; try apply Htail.
  apply same_bind; [|intros; apply same_ret].
  apply same_Array_map. cbn [ref_free_opt ref_free] in Ftype.
  apply forallb_Forall_plain in Ftype.
  eapply Forall_impl; [exact Ftype|]. intros member Hm. apply Hj.
  destruct node as [| | | | |kvs]; try discriminate Etype.
  cbn [entries]. apply ref_free_assoc_set; assumption.
Qed.

Lemma renderObject_loop_same j1 j2 required indent c1 c2 depth props lines :
  (forall n, ref_free n = true -> same (j1 n c1 (depth + 1)) (j2 n c2 (depth + 1))) ->
  Forall (fun kv => ref_free (snd kv) = true) props ->
  same (renderObject_loop j1 required indent c1 depth props lines)
       (renderObject_loop j2 required indent c2 depth props lines).
Proof.
  intros Hj Hprops. revert lines.
  induction Hprops as [|[key value] rest Hv _ IH]; intros lines;
    cbn [renderObject_loop].
  - apply same_ret.
  - apply same_bind_lift. intros doc _.
    apply same_bind; [apply Hj; exact Hv|]. intros ty. apply IH.
Qed.

Lemma renderObject_body_same j1 j2 node c1 c2 depth :
  (forall n, ref_free n = true -> same (j1 n c1 (depth + 1)) (j2 n c2 (depth + 1))) ->
  ref_free node = true ->
  same (renderObject_body j1 node c1 depth) (renderObject_body j2 node c2 depth).
Proof.
  intros Hj Hfree. unfold renderObject_body.
  apply same_bind_lift. intros properties Eproperties.
  apply same_bind_lift. intros required_field _.
  apply same_bind_lift. intros required _.
  apply same_bind.
  { apply renderObject_loop_same; [exact Hj|]. apply ref_free_entries.
    pose proof (ref_free_field _ _ _ Hfree Eproperties) as F.
    destruct properties as [[]|]; first [exact F|reflexivity]. }
  intros lines. apply same_bind_lift. intros additionalProperties Eadditional.
  pose proof (ref_free_field _ _ _ Hfree Eadditional) as F.
  apply same_bind.
  { destruct additionalProperties as [value|]; [|apply same_ret].
    destruct value as [|[]| | | |]; cbn [typeof_object]; try apply same_ret;
      (apply same_bind; [apply Hj; exact F|intros; apply same_ret]). }
  intros lines'. destruct depth; [apply same_throw|apply same_ret].
Qed.

Lemma gas_same g :
  (forall depth node c1 c2,
      1 <= g -> 23 <= g + depth -> ref_free node = true ->
      same (jsonTypeToTsType_gas fs1 g node c1 depth)
           (jsonTypeToTsType_gas fs2 g node c2 depth))
  /\ (forall depth node c1 c2,
      2 <= g -> 23 <= g + depth -> ref_free node = true ->
      same (renderObject_gas fs1 g node c1 depth)
           (renderObject_gas fs2 g node c2 depth)).
Proof.
  induction g as [|g [IHj IHr]]; [split; intros; lia|].
  split; intros depth node c1 c2 Hg Hd Hfree.
  - cbn [jsonTypeToTsType_gas].
    destruct (Nat.lt_ge_cases 20 depth) as [Hb|Hb].
    + exists (Ok "unknown").
      split; intros st; apply jsonTypeToTsType_body_beyond; exact Hb.
    + apply jsonTypeToTsType_body_same; [| |exact Hfree]; intros.
      * apply IHj; [lia|lia|assumption].
      * apply IHr; [lia|lia|assumption].
  - cbn [renderObject_gas].
    apply renderObject_body_same; [|exact Hfree]; intros.
    apply IHj; [lia|lia|assumption].
Qed.

End RefFree.

Lemma ref_free_same (node : json) (depth : nat) :
  ref_free node = true ->
  forall fs1 fs2 c1 c2,
    same (jsonTypeToTsType fs1 node c1 depth) (jsonTypeToTsType fs2 node c2 depth).
Proof.
  intros Hfree fs1 fs2 c1 c2. unfold jsonTypeToTsType.
  apply (proj1 (gas_same fs1 fs2 _)); [lia|lia|exact Hfree].
Qed.

(** X9. A node without any reference in it is synthesized without
    looking at the file system, the context or the store: the outcome, a
    text or an exception, is the same for all of them, and the store is
    left as it was. *)
Theorem ref_free_synthesis_pure :
  forall (node : json) (depth : nat),
    ref_free node = true ->
    exists out,
      forall (fs : string -> option file) (context : SchemaContext) (st : store),
        jsonTypeToTsType fs node context depth st = Some (out, st).
Proof.
  intros node depth Hfree. pose proof (ref_free_same node depth Hfree) as H.
  destruct (H no_files no_files definitions_context definitions_context)
    as (out & H0 & _).
  exists out. intros fs context st.
  destruct (H no_files fs definitions_context context) as (out' & H1 & H2).
  specialize (H0 empty_store). rewrite (H1 empty_store) in H0.
  injection H0 as ->. apply H2.
Qed.

Lemma ref_free_synthesis_pure_witness :
  exists out,
    forall (fs : string -> option file) (context : SchemaContext) (st : store),
      jsonTypeToTsType fs stats_node context 0 st = Some (out, st).
Proof. apply (ref_free_synthesis_pure stats_node 0). reflexivity. Defined.

(** ** Type names *)

Lemma toUpperCase_alnum (c : ascii) : alnum c = true -> alnum (toUpperCase c) = true.
Proof. destruct c as [[] [] [] [] [] [] [] []]; intros H; try discriminate H; reflexivity. Qed.

Lemma toUpperCase_twice (c : ascii) : toUpperCase (toUpperCase c) = toUpperCase c.
Proof. destruct c as [[] [] [] [] [] [] [] []]; reflexivity. Qed.

Lemma toUpperCase_other (c : ascii) : alnum c = false -> toUpperCase c = c.
Proof. destruct c as [[] [] [] [] [] [] [] []]; intros H; try discriminate H; reflexivity. Qed.

Lemma split_runs_not_nil (b : bool) (s : string) : split_runs b s <> [].
Proof.
  revert b. induction s as [|c s IH]; intros b; cbn [split_runs]; [discriminate|].
  destruct (alnum c).
  - destruct (split_runs false s); discriminate.
  - destruct b; [apply IH|discriminate].
Qed.

Lemma join_empty_cons (x : string) (xs : list string) :
  join EmptyString (x :: xs) = x ++ join EmptyString xs.
Proof.
  unfold join. destruct xs as [|y ys]; cbn [String.concat].
  - induction x as [|c x IH]; [reflexivity|]. rewrite append_cons, <- IH. reflexivity.
  - reflexivity.
Qed.

(** The parts after a run, capitalized and joined. *)
Lemma split_runs_pascal (s : string) :
  (match split_runs false s with
   | [] => EmptyString
   | x :: xs =>
       x ++ join EmptyString (List.map capitalize (List.filter nonempty xs))
   end = pascal false s)
  /\ join EmptyString
       (List.map capitalize (List.filter nonempty (split_runs true s)))
     = pascal true s
  /\ join EmptyString
       (List.map capitalize (List.filter nonempty (split_runs false s)))
     = pascal true s.
Proof.
  induction s as [|c s (IH1 & IH2 & IH3)]; [repeat split; reflexivity|].
  cbn [split_runs pascal]. destruct (alnum c).
  - pose proof (split_runs_not_nil false s) as Hne.
    destruct (split_runs false s) as [|x xs]; [contradiction|].
    cbn [List.filter nonempty List.map capitalize].
    rewrite !join_empty_cons, !append_cons, IH1. repeat split; reflexivity.
  - cbn [List.filter nonempty]. rewrite IH2. repeat split; reflexivity.
Qed.

Lemma toPascalCase_pascal (value : string) : toPascalCase value = pascal true value.
Proof. apply split_runs_pascal. Qed.

Lemma pascal_all_alnum (b : bool) (s : string) : all_alnum (pascal b s) = true.
Proof.
  unfold all_alnum. revert b. induction s as [|c s IH]; intros b; [reflexivity|].
  cbn [pascal]. destruct (alnum c) eqn:E; [|apply IH].
  cbn [list_ascii_of_string forallb]. rewrite IH.
  destruct b; [rewrite (toUpperCase_alnum c E)|rewrite E]; reflexivity.
Qed.

Lemma pascal_false_alnum (s : string) : all_alnum s = true -> pascal false s = s.
Proof.
  unfold all_alnum. induction s as [|c s IH]; [reflexivity|].
  cbn [list_ascii_of_string forallb pascal]. intros H.
  apply andb_prop in H as [-> Hs]. rewrite (IH Hs). reflexivity.
Qed.

Lemma pascal_true_alnum (s : string) : all_alnum s = true -> pascal true s = capitalize s.
Proof.
  unfold all_alnum. destruct s as [|c s]; [reflexivity|].
  cbn [list_ascii_of_string forallb pascal capitalize]. intros H.
  apply andb_prop in H as [-> Hs]. rewrite (pascal_false_alnum s Hs). reflexivity.
Qed.

Lemma capitalize_pascal (s : string) : capitalize (pascal true s) = pascal true s.
Proof.
  induction s as [|c s IH]; [reflexivity|]. cbn [pascal].
  destruct (alnum c); [|exact IH]. cbn [capitalize].
  rewrite toUpperCase_twice. reflexivity.
Qed.

Lemma pascal_separator (b : bool) (before after : string) (c1 c2 : ascii) :
  alnum c1 = false -> alnum c2 = false ->
  pascal b (before ++ String c1 after) = pascal b (before ++ String c2 after).
Proof.
  intros H1 H2. revert b. induction before as [|c before IH]; intros b.
  - change (EmptyString ++ String c1 after) with (String c1 after).
    change (EmptyString ++ String c2 after) with (String c2 after).
    cbn [pascal]. rewrite H1, H2. reflexivity.
  - rewrite !append_cons. cbn [pascal]. rewrite !IH. reflexivity.
Qed.

Lemma pascal_run (b : bool) (before after : string) (c : ascii) :
  alnum c = false ->
  pascal b (before ++ String c (String c after)) = pascal b (before ++ String c after).
Proof.
  intros H. revert b. induction before as [|d before IH]; intros b.
  - change (EmptyString ++ ?x) with x. cbn [pascal]. rewrite H. reflexivity.
  - rewrite !append_cons. cbn [pascal]. rewrite !IH. reflexivity.
Qed.

Lemma pascal_capital (before after : string) (c : ascii) :
  alnum c = false ->
  pascal true (before ++ String c (capitalize after))
  = pascal true (before ++ String c after).
Proof.
  intros H. generalize true. induction before as [|d before IH]; intros b.
  - change (EmptyString ++ ?x) with x. cbn [pascal]. rewrite H.
    destruct after as [|a after]; [reflexivity|]. cbn [capitalize pascal].
    destruct (alnum a) eqn:Ea.
    + rewrite (toUpperCase_alnum a Ea), toUpperCase_twice. reflexivity.
    + rewrite (toUpperCase_other a Ea), Ea. reflexivity.
  - rewrite !append_cons. cbn [pascal]. rewrite !IH. reflexivity.
Qed.

(** X10. [toPascalCase] returns letters and digits only, and applying it
    to its own result changes nothing. *)
Theorem toPascalCase_idempotent :
  forall value : string,
    all_alnum (toPascalCase value) = true
    /\ toPascalCase (toPascalCase value) = toPascalCase value.
Proof.
  intros value. rewrite !toPascalCase_pascal. split.
  - apply pascal_all_alnum.
  - rewrite (pascal_true_alnum _ (pascal_all_alnum true value)).
    apply capitalize_pascal.
Qed.

(** X11. Names that differ only in which character separates two parts,
    in the length of a run of one separator, or in the case of the letter
    that opens a part, are given one and the same type name. *)
Theorem toPascalCase_collisions :
  forall (before after : string) (c1 c2 : ascii),
    alnum c1 = false ->
    alnum c2 = false ->
    toPascalCase (before ++ String c1 after) = toPascalCase (before ++ String c2 after)
    /\ toPascalCase (before ++ String c1 (String c1 after))
       = toPascalCase (before ++ String c1 after)
    /\ toPascalCase (before ++ String c1 (capitalize after))
       = toPascalCase (before ++ String c1 after)
    /\ toPascalCase (capitalize after) = toPascalCase after.
Proof.
  intros before after c1 c2 H1 H2. rewrite !toPascalCase_pascal.
  split; [apply pascal_separator; assumption|].
  split; [apply pascal_run; assumption|].
  split; [apply pascal_capital; assumption|].
  destruct after as [|a after]; [reflexivity|]. cbn [capitalize pascal].
  destruct (alnum a) eqn:Ea.
  - rewrite (toUpperCase_alnum a Ea), toUpperCase_twice. reflexivity.
  - rewrite (toUpperCase_other a Ea), Ea. reflexivity.
Qed.

Lemma toPascalCase_collisions_witness :
  toPascalCase ("minecraft" ++ String ":" "is_baby")
  = toPascalCase ("minecraft" ++ String "." "is_baby")
  /\ toPascalCase ("minecraft" ++ String ":" (String ":" "is_baby"))
     = toPascalCase ("minecraft" ++ String ":" "is_baby")
  /\ toPascalCase ("minecraft" ++ String ":" (capitalize "is_baby"))
     = toPascalCase ("minecraft" ++ String ":" "is_baby")
  /\ toPascalCase (capitalize "is_baby") = toPascalCase "is_baby".
Proof.
  apply (toPascalCase_collisions "minecraft" "is_baby" ":" ".").
  - reflexivity.
  - reflexivity.
Defined.

(** ** A run as a whole *)

(** X12. Whatever a run does to the store, from whichever store it starts
    and whether it returns or raises: a document that was cached stays
    cached as it is, a document newly cached is the one the file system
    holds at its path, and the log of reads is only extended.  So after a
    run from the empty store every cached document is the file's. *)
Theorem run_store_evolves :
  forall (fs : string -> option file) (gas : nat) (st : store)
         (out : outcome (list ComponentDefinition)) (st' : store),
    main_gas fs gas st = Some (out, st') ->
    evolves fs st st'
    /\ (st = empty_store ->
        forall p j, schemaCache st' !! p = Some j -> fs p = Some (Document j)).
Proof.
  intros fs gas st out st' H.
  destruct (main_gas_orderly fs gas _ _ _ H) as [He _]. split; [exact He|].
  intros -> p j Hp. destruct He as (_ & Hnew & _).
  destruct (Hnew p j Hp) as [Hold|Hfs]; [|exact Hfs].
  cbn [empty_store schemaCache] in Hold. rewrite lookup_empty in Hold. discriminate.
Qed.

Lemma run_store_evolves_witness :
  evolves linked_files empty_store linked_store
  /\ (empty_store = empty_store ->
      forall p j,
        schemaCache linked_store !! p = Some j -> linked_files p = Some (Document j)).
Proof.
  apply (run_store_evolves linked_files 2 empty_store (Ok linked_components)
           linked_store).
  vm_compute. reflexivity.
Defined.

(** X13. [RangeError] is out of reach: [renderObject] called at depth 0
    would raise it when closing the record, and so never returns a text
    there, but [jsonTypeToTsType] calls it one level below its own depth;
    neither a synthesis nor a whole run raises it. *)
Theorem RangeError_unreachable :
  forall fs : string -> option file,
    (forall node context depth st st',
        jsonTypeToTsType fs node context depth st <> Some (Throw RangeError, st'))
    /\ (forall gas st st', main_gas fs gas st <> Some (Throw RangeError, st'))
    /\ (forall node context st text st',
           renderObject fs node context 0 st <> Some (Ok text, st')).
Proof.
  intros fs. split; [|split].
  - intros node context depth st st' H. unfold jsonTypeToTsType in H.
    destruct (proj1 (gas_orderly fs _) _ _ _ _ _ _ H) as [_ Hno].
    apply Hno. reflexivity.
  - intros gas st st' H. destruct (main_gas_orderly fs gas _ _ _ H) as [_ Hno].
    apply Hno. reflexivity.
  - intros node context st text st' H. rewrite renderObject_unfold in H.
    unfold renderObject_body in H.
    apply bind_Ok in H as (properties & st1 & _ & H).
    apply bind_Ok in H as (required_field & st2 & _ & H).
    apply bind_Ok in H as (required & st3 & _ & H).
    apply bind_Ok in H as (lines & st4 & _ & H).
    apply bind_Ok in H as (ap & st5 & _ & H).
    apply bind_Ok in H as (lines' & st6 & _ & H).
    discriminate H.
Qed.

(** ** Components *)

Lemma extractComponent_name fs gas context entry st component st' :
  extractComponent fs gas context entry st = Some (Ok component, st') ->
  name component = fst entry.
Proof.
  destruct entry as [key node]. unfold extractComponent. intros H.
  invert_M. reflexivity.
Qed.

Lemma Array_map_map {A B C : Type} (f : A -> M B) (g : B -> C) (h : A -> C)
    (xs : list A) st ys st' :
  (forall x st1 y st2, f x st1 = Some (Ok y, st2) -> g y = h x) ->
  Array_map f xs st = Some (Ok ys, st') -> List.map g ys = List.map h xs.
Proof.
  intros Hf. revert st ys st'.
  induction xs as [|x xs IH]; intros st ys st' H; cbn [Array_map] in H.
  - injection H as <- _. reflexivity.
  - apply bind_Ok in H as (y & st1 & Hy & H).
    apply bind_Ok in H as (ys' & st2 & Hys & H).
    injection H as <- _. cbn [List.map]. rewrite (Hf _ _ _ _ Hy), (IH _ _ _ Hys).
    reflexivity.
Qed.

(** X14. Whenever [extractComponents] returns, it returns one component
    for each property of the root schema, under the name of the property
    and in the order of the properties. *)
Theorem extractComponents_names :
  forall (fs : string -> option file) (gas : nat) (context : SchemaContext)
         (st : store) (components : list ComponentDefinition) (st' : store),
    extractComponents_gas fs gas context st = Some (Ok components, st') ->
    List.map name components = List.map fst (properties_of (schema context)).
Proof.
  intros fs gas context st components st' H.
  unfold extractComponents_gas in H.
  apply bind_Ok in H as (properties & st1 & Hp & H).
  unfold lift in Hp. injection Hp as Hp <-.
  unfold properties_of, field_value. rewrite Hp.
  eapply Array_map_map; [|exact H].
  intros x st2 y st3. apply extractComponent_name.
Qed.

Lemma extractComponents_names_witness :
  List.map name linked_components
  = List.map fst
      (properties_of (schema {| schema := linked_root; path := ROOT_SCHEMA |})).
Proof.
  apply (extractComponents_names linked_files 2
           {| schema := linked_root; path := ROOT_SCHEMA |}
           {| schemaCache := <[ROOT_SCHEMA := linked_root]> ∅; reads := [ROOT_SCHEMA] |}
           linked_components linked_store).
  vm_compute. reflexivity.
Defined.

(** ** Descriptions *)

Lemma ToString_raises : forall (v : json) (e : error), ToString v = Throw e -> e = TypeError.
Proof.
  fix IH 1. intros v e. destruct v as [|[]| | |xs|kvs]; cbn [ToString];
    try discriminate.
  - assert (G : forall l e',
               (fix elements (l : list json) : outcome (list string) :=
                  match l with
                  | [] => Ok []
                  | x :: l' =>
                      let? s := match x with
                                | JNull => Ok EmptyString
                                | _ => ToString x
                                end in
                      let? ss := elements l' in
                      Ok (s :: ss)
                  end) l = Throw e' -> e' = TypeError).
    { fix IHxs 1. intros l e'. destruct l as [|x l]; [discriminate|].
      pose proof (IH x e') as Hx. pose proof (IHxs l e') as Hl.
      destruct x; cbn [obind];
        repeat match goal with
          | |- context [obind ?m _] =>
              let E := fresh "E" in destruct m eqn:E; cbn [obind]
          end;
        intros H; try discriminate H; injection H as <-; auto. }
    intros H. specialize (G xs e).
    destruct ((fix elements (l : list json) : outcome (list string) :=
                 match l with
                 | [] => Ok []
                 | x :: l' =>
                     let? s := match x with
                               | JNull => Ok EmptyString
                               | _ => ToString x
                               end in
                     let? ss := elements l' in
                     Ok (s :: ss)
                 end) xs); cbn [obind] in H; [discriminate|].
    injection H as <-. apply G. reflexivity.
  - destruct (bool_decide (is_Some (assoc "toString" kvs))); [|discriminate].
    intros [= <-]. reflexivity.
Qed.

Lemma js_member_length_returns (e : json) :
  truthy e = true -> exists l, js_member e "length" = Ok l.
Proof.
  destruct e as [| | |s|xs|kvs]; cbn [js_member]; try discriminate; eauto.
  - intros _. destruct (array_index "length" (String.length s)); eauto.
  - intros _. destruct (array_index "length" (length xs)); eauto.
Qed.

(** X15. A description that is truthy and not a text is fatal wherever it
    is cut into lines: [generateJSDoc] raises [TypeError] on such a node,
    and so does the alias of [generateTypeScript] on such a component. *)
Theorem description_must_be_text :
  forall d : json,
    truthy d = true ->
    is_string d = false ->
    (forall node depth,
        field node "description" = Ok (Some d) ->
        generateJSDoc node depth = Throw TypeError)
    /\ (forall component,
           description component = Some d ->
           typeAlias component = Throw TypeError).
Proof.
  intros d Ht Hs. split.
  - intros node depth Hd. destruct node as [| | | | |kvs]; try discriminate Hd.
    cbn [field] in Hd. injection Hd as Hd.
    unfold generateJSDoc. cbn [field obind]. rewrite Hd.
    assert (Hlen : exists l,
               match assoc "examples" kvs with
               | Some e => if truthy e then js_member e "length" else Ok None
               | None => Ok None
               end = Ok l).
    { destruct (assoc "examples" kvs) as [e|]; [|eauto].
      destruct (truthy e) eqn:Te; [|eauto]. apply js_member_length_returns, Te. }
    destruct Hlen as [l ->]. cbn [obind truthy_opt]. rewrite Ht.
    rewrite orb_true_r. cbn [orb].
    destruct (truthy_opt (assoc "title" kvs)
              && negb (strict_equal (assoc "title" kvs) (Some d))).
    + destruct (ToString (default JNull (assoc "title" kvs))) as [t|e] eqn:E;
        cbn [obind].
      * destruct d; first [discriminate Hs|reflexivity].
      * rewrite (ToString_raises _ _ E). reflexivity.
    + cbn [obind]. destruct d; first [discriminate Hs|reflexivity].
  - intros [n ty descr ti] Hd. cbn [description] in Hd. subst descr.
    unfold typeAlias. cbn [title description truthy_opt]. rewrite Ht.
    rewrite orb_true_r.
    destruct (truthy_opt ti && negb (strict_equal ti (Some d))).
    + destruct (ToString (default JNull ti)) as [t|e] eqn:E; cbn [obind].
      * destruct d; first [discriminate Hs|reflexivity].
      * rewrite (ToString_raises _ _ E). reflexivity.
    + cbn [obind]. destruct d; first [discriminate Hs|reflexivity].
Qed.

Lemma description_must_be_text_witness :
  (forall node depth,
      field node "description" = Ok (Some (JNum 5)) ->
      generateJSDoc node depth = Throw TypeError)
  /\ (forall component,
         description component = Some (JNum 5) ->
         typeAlias component = Throw TypeError).
Proof.
  apply (description_must_be_text (JNum 5)).
  - reflexivity.
  - reflexivity.
Defined.

(** ** The emitted text *)

Lemma typeAlias_typed (component : ComponentDefinition) :
  typed_component component = true -> returns_value (typeAlias component).
Proof.
  destruct component as [n ty descr ti]. unfold typed_component, typeAlias.
  cbn [title description]. intros H. apply andb_prop in H as [Hti Hd].
  destruct ti as [[]|]; try discriminate Hti;
    destruct descr as [[]|]; try discriminate Hd;
    cbn [truthy_opt truthy ToString from_option id strict_equal];
    repeat returns_value_step.
Qed.

Lemma map_outcome_returns {A B : Type} (f : A -> outcome B) (xs : list A) :
  Forall (fun x => returns_value (f x)) xs -> returns_value (map_outcome f xs).
Proof.
  induction 1 as [|x xs Hx _ IH]; cbn [map_outcome].
  - apply returns_value_Ok.
  - apply returns_value_obind; [exact Hx|]. intros y.
    apply returns_value_obind; [exact IH|]. intros ys. apply returns_value_Ok.
Qed.

Lemma generateTypeScript_typed (components : list ComponentDefinition) :
  Forall (fun component => typed_component component = true) components ->
  returns_value (generateTypeScript components).
Proof.
  intros H. unfold generateTypeScript.
  apply returns_value_obind; [|intros; apply returns_value_Ok].
  apply map_outcome_returns. eapply Forall_impl; [exact H|].
  exact typeAlias_typed.
Qed.

Lemma Array_map_steady {A B : Type} (f : A -> M B) (P : B -> Prop) (xs : list A) :
  Forall (fun x => exists y, P y /\ forall st, f x st = Some (Ok y, st)) xs ->
  exists ys, Forall P ys /\ forall st, Array_map f xs st = Some (Ok ys, st).
Proof.
  induction 1 as [|x xs (y & Py & Hy) _ (ys & Pys & Hys)]; cbn [Array_map].
  - exists []. split; [constructor|reflexivity].
  - exists (y :: ys). split; [constructor; assumption|].
    intros st. unfold bind. rewrite Hy, Hys. reflexivity.
Qed.

Lemma field_returns (node : json) (name : string) :
  node <> JNull -> field node name = Ok (field_value node name).
Proof. intros H. unfold field_value. destruct node; first [contradiction|reflexivity]. Qed.

Lemma extractComponent_plain fs gas context key node :
  plain_schema node = true ->
  ref_free node = true ->
  exists component,
    typed_component component = true
    /\ forall st,
        extractComponent fs (S gas) context (key, node) st = Some (Ok component, st).
Proof.
  intros Hp Hfree.
  destruct (ref_free_same node 0 Hfree fs fs
              {| schema := node; path := path context |}
              {| schema := node; path := path context |}) as (out & Hout & _).
  destruct (jsonTypeToTsType_plain fs node
              {| schema := node; path := path context |} 0 Hp empty_store)
    as (text & st' & Htext).
  rewrite Hout in Htext. injection Htext as -> _.
  destruct node as [| | | | |kvs]; try discriminate Hp.
  pose proof (plain_assoc kvs "description") as Hd.
  pose proof (plain_assoc kvs "title") as Ht.
  assert (Href : truthy_opt (assoc "$ref" kvs) = false).
  { exact (ref_free_no_ref (JObj kvs) _ Hfree eq_refl). }
  exists {| name := key; type := text;
            description := assoc "description" kvs;
            title := assoc "title" kvs |}.
  split.
  - unfold typed_component. cbn [title description].
    destruct (assoc "title" kvs) as [t|];
      [specialize (Ht t Hp eq_refl); destruct t; try discriminate Ht|];
    (destruct (assoc "description" kvs) as [d|];
      [specialize (Hd d Hp eq_refl); destruct d; try discriminate Hd|]);
    reflexivity.
  - intros st. unfold extractComponent. cbn [resolveSchema_gas field].
    rewrite bind_lift_Ok, Href. cbn [negb]. unfold bind at 1. cbn [ret schema].
    unfold bind at 1. rewrite Hout. cbn [field]. rewrite !bind_lift_Ok.
    destruct (assoc "title" kvs) as [t|];
      [specialize (Ht t Hp eq_refl); destruct t; try discriminate Ht|];
    (destruct (assoc "description" kvs) as [d|];
      [specialize (Hd d Hp eq_refl); destruct d; try discriminate Hd|]);
    reflexivity.
Qed.

(** X16. [generateTypeScript] returns a text whenever the title and the
    description of every component are texts or missing, as the type
    [ComponentDefinition] declares them. *)
Theorem generateTypeScript_returns :
  forall components : list ComponentDefinition,
    Forall (fun component => typed_component component = true) components ->
    exists text, generateTypeScript components = Ok text.
Proof.
  intros components H.
  assert (Haliases : returns_value (map_outcome typeAlias components)).
  { apply map_outcome_returns. eapply Forall_impl; [exact H|].
    exact typeAlias_typed. }
  destruct Haliases as [aliases Haliases].
  unfold generateTypeScript. rewrite Haliases. cbn [obind]. eexists. reflexivity.
Qed.

Lemma generateTypeScript_returns_witness :
  exists text, generateTypeScript linked_components = Ok text.
Proof.
  apply (generateTypeScript_returns linked_components).
  repeat constructor.
Defined.

(** X17. A run over a root document whose components are schemas of the
    declared type without references returns the text of the module,
    having read the root document and nothing else. *)
Theorem plain_run_returns :
  forall (fs : string -> option file) (root : json) (gas : nat),
    fs ROOT_SCHEMA = Some (Document root) ->
    root <> JNull ->
    Forall (fun kv => plain_schema (snd kv) = true /\ ref_free (snd kv) = true)
      (properties_of root) ->
    exists text,
      main_text_gas fs (S gas) empty_store = Some (Ok text, root_loaded root).
Proof.
  intros fs root gas Hroot Hnull Hprops.
  assert (Hcomponents :
            exists components,
              Forall (fun c => typed_component c = true) components
              /\ forall st,
                  Array_map
                    (extractComponent fs (S gas) {| schema := root; path := ROOT_SCHEMA |})
                    (properties_of root) st
                  = Some (Ok components, st)).
  { apply Array_map_steady. eapply Forall_impl; [exact Hprops|].
    intros [key node] [Hp Hfree]. apply extractComponent_plain; assumption. }
  destruct Hcomponents as (components & Htyped & Hrun).
  destruct (generateTypeScript_typed components Htyped) as [text Htext].
  exists text. unfold main_text_gas, main_gas, extractComponents_gas.
  unfold bind at 1. unfold bind at 1.
  unfold loadSchemaContext. cbn [empty_store schemaCache reads].
  rewrite lookup_empty, Hroot. cbn [schema app].
  rewrite (field_returns root "properties" Hnull), bind_lift_Ok.
  fold (properties_of root).
  change {| schemaCache := <[ROOT_SCHEMA := root]> ∅; reads := [ROOT_SCHEMA] |}
    with (root_loaded root).
  rewrite Hrun. unfold lift. rewrite Htext. reflexivity.
Qed.

Lemma plain_run_returns_witness :
  exists text,
    main_text_gas
      (fun p => if String.eqb p ROOT_SCHEMA
                then Some (Document
                             (JObj [("properties",
                                     JObj [("minecraft:health", health_doc)])]))
                else None)
      1 empty_store
    = Some (Ok text,
            root_loaded (JObj [("properties", JObj [("minecraft:health", health_doc)])])).
Proof.
  apply (plain_run_returns
           (fun p => if String.eqb p ROOT_SCHEMA
                     then Some (Document
                                  (JObj [("properties",
                                          JObj [("minecraft:health", health_doc)])]))
                     else None)
           (JObj [("properties", JObj [("minecraft:health", health_doc)])]) 0).
  - reflexivity.
  - discriminate.
  - repeat constructor.
Defined.

(** ** Archive entries *)

Lemma prefix_app (pre rest : string) : String.prefix pre (pre ++ rest) = true.
Proof.
  induction pre as [|c pre IH].
  - destruct rest; reflexivity.
  - rewrite append_cons, prefix_cons, Ascii.eqb_refl. exact IH.
Qed.

Lemma length_app (a b : string) :
  String.length (a ++ b) = String.length a + String.length b.
Proof.
  induction a as [|c a IH]; [reflexivity|].
  rewrite append_cons. cbn [String.length]. rewrite IH. reflexivity.
Qed.

Lemma slice_app (pre rest : string) : slice (String.length pre) (pre ++ rest) = rest.
Proof.
  unfold slice. rewrite length_app.
  replace (String.length pre + String.length rest - String.length pre)
    with (String.length rest) by lia.
  induction pre as [|c pre IH].
  - apply substring_all.
  - rewrite append_cons. cbn [String.length String.substring]. exact IH.
Qed.

Lemma nonempty_strip (rel : string) :
  nonempty (strip_slashes rel) = true -> nonempty rel = true.
Proof. destruct rel; [discriminate|reflexivity]. Qed.

Lemma normalize_strip (dir rel : string) :
  nonempty dir = true ->
  nonempty (strip_slashes rel) = true ->
  posix.normalize (dir ++ "/" ++ strip_slashes rel)
  = posix.normalize (dir ++ "/" ++ rel).
Proof.
  intros Hdir. induction rel as [|c rel IH]; [discriminate|].
  cbn [strip_slashes]. destruct (Ascii.eqb c "/") eqn:E; [|reflexivity].
  apply Ascii.eqb_eq in E. subst c. intros Hrel. rewrite (IH Hrel).
  symmetry.
  apply (normalize_neutral dir EmptyString rel Hdir (nonempty_strip rel Hrel)).
  reflexivity.
Qed.

(** X18. An entry of the archive that lies below the archive's top
    directory is written to the very path at which [getRepoPath] looks for
    it: the file [PREFIX/rel] goes to [getRepoPath(rel)], directories
    being created likewise, and an entry outside the top directory is
    skipped. *)
Theorem archive_entry_target :
  forall (REPO_DIR rel : string),
    nonempty REPO_DIR = true ->
    nonempty (strip_slashes rel) = true ->
    on_entry REPO_DIR (ARCHIVE_PREFIX ++ String "/" rel) "file"
    = WriteFile (posix.dirname (getRepoPath REPO_DIR rel)) (getRepoPath REPO_DIR rel)
    /\ on_entry REPO_DIR (ARCHIVE_PREFIX ++ String "/" rel) "directory"
       = MakeDirectory (getRepoPath REPO_DIR rel)
    /\ (forall name type,
           startsWith name ARCHIVE_PREFIX = false ->
           on_entry REPO_DIR name type = Skip).
Proof.
  intros REPO_DIR rel Hdir Hrel.
  assert (Htarget : posix.join REPO_DIR (strip_slashes rel) = getRepoPath REPO_DIR rel).
  { unfold getRepoPath.
    rewrite !join_nonempty by auto using nonempty_strip.
    apply normalize_strip; assumption. }
  assert (Hrelative :
            strip_slashes (slice (String.length ARCHIVE_PREFIX)
                             (ARCHIVE_PREFIX ++ String "/" rel))
            = strip_slashes rel).
  { rewrite slice_app. reflexivity. }
  split; [|split].
  - unfold on_entry, startsWith. rewrite prefix_app, Hrelative, Hrel, Htarget.
    reflexivity.
  - unfold on_entry, startsWith. rewrite prefix_app, Hrelative, Hrel, Htarget.
    reflexivity.
  - intros name type H. unfold on_entry. rewrite H. reflexivity.
Qed.

Lemma archive_entry_target_witness :
  on_entry "/cache/repo" (ARCHIVE_PREFIX ++ String "/" ROOT_SCHEMA) "file"
  = WriteFile (posix.dirname (getRepoPath "/cache/repo" ROOT_SCHEMA))
      (getRepoPath "/cache/repo" ROOT_SCHEMA)
  /\ on_entry "/cache/repo" (ARCHIVE_PREFIX ++ String "/" ROOT_SCHEMA) "directory"
     = MakeDirectory (getRepoPath "/cache/repo" ROOT_SCHEMA)
  /\ (forall name type,
         startsWith name ARCHIVE_PREFIX = false ->
         on_entry "/cache/repo" name type = Skip).
Proof.
  apply (archive_entry_target "/cache/repo" ROOT_SCHEMA).
  - reflexivity.
  - reflexivity.
Defined.

(** ** References that follow one another inside a document *)

(** X19. The context that a reference [#/p] returns has the node reached
    as its schema, so a reference [#/q] borne by that node is looked up
    inside the node, not from the root of the document: where the node
    holds nothing at [q], the synthesis gives "unknown", whatever the
    document holds at [#/q]. *)
Theorem chained_local_reference :
  forall (fs : string -> option file) (context : SchemaContext) (p q : string)
         (kvs : list (string * json)) (depth : nat) (st : store),
    depth < 20 ->
    getByPointer (schema context) (pointer_to p) = Ok (JObj kvs) ->
    assoc "$ref" kvs = Some (JStr (pointer_to q)) ->
    getByPointer (JObj kvs) (pointer_to q) = Ok JNull ->
    jsonTypeToTsType fs (JObj [("$ref", JStr (pointer_to p))]) context depth st
    = Some (Ok "unknown", st).
Proof.
  intros fs context p q kvs depth st Hd Hp Href Hq.
  rewrite (jsonTypeToTsType_ref fs _ context depth (JStr (pointer_to p)) st);
    [|lia|reflexivity|reflexivity].
  unfold resolveRef at 1. rewrite startsWith_pointer_to, Hp, bind_lift_Ok.
  cbn [truthy]. unfold bind at 1. cbn [ret schema].
  rewrite (jsonTypeToTsType_ref fs _ _ (depth + 1) (JStr (pointer_to q)) st);
    [|lia|cbn [field]; rewrite Href; reflexivity|reflexivity].
  unfold resolveRef. rewrite startsWith_pointer_to. cbn [schema].
  rewrite Hq. reflexivity.
Qed.

Lemma chained_local_reference_witness :
  jsonTypeToTsType no_files (JObj [("$ref", JStr (pointer_to "definitions/Alias"))])
    alias_context 0 empty_store
  = Some (Ok "unknown", empty_store)
  /\ fst <$> jsonTypeToTsType no_files
               (JObj [("$ref", JStr (pointer_to "definitions/Name"))])
               alias_context 0 empty_store
     = Some (Ok "string").
Proof.
  split.
  - apply (chained_local_reference no_files alias_context "definitions/Alias"
             "definitions/Name" [("$ref", JStr "#/definitions/Name")] 0 empty_store).
    + lia.
    + reflexivity.
    + reflexivity.
    + reflexivity.
  - reflexivity.
Defined.

(** ** Termination over a finite file system *)








Section Finite.

Variable fs : string -> option file.
Variable files : list string.

Hypothesis finite : forall p, is_Some (fs p) -> p ∈ files.










End Finite.









Section FiniteRun.

Variable fs : string -> option file.
Variable files : list string.

Hypothesis finite : forall p, is_Some (fs p) -> p ∈ files.








End FiniteRun.



(** ** Records *)

(** X21. [renderObject] terminates on every node, context, depth and
    store: the call finishes, returning or raising, with a result that no
    additional gas changes, and the function is a solution of the
    recursive equation the source states, over [jsonTypeToTsType]. *)
Theorem renderObject_terminates :
  forall (fs : string -> option file) (node : json) (context : SchemaContext)
         (depth : nat) (st : store),
    (exists r,
        renderObject fs node context depth st = Some r
        /\ forall extra,
            renderObject_gas fs (S (S (23 - depth)) + extra) node context depth st
            = Some r)
    /\ renderObject fs node context depth st
       = renderObject_body (jsonTypeToTsType fs) node context depth st.
Proof.
  intros fs node context depth st. split.
  - destruct (renderObject_returns fs node context depth st) as [r Hr].
    exists r. split; [exact Hr|]. intros extra. rewrite <- Hr.
    unfold renderObject. apply (proj2 (gas_stable fs _)); lia.
  - apply renderObject_unfold.
Qed.
